(** * kooplearn: dual (kernel) operator regression

    A shallow embedding of [kooplearn/_src/operator_regression/dual.py] and of
    [kooplearn/jax/linalg.py].

    Numbers.  numpy's float64/complex128 entries are taken in an exact
    algebraically closed field [C] with its real subfield ([Num.real]),
    square root [sqrtC], conjugation, ['Re] and ['Im]: rounding is not
    modelled.  Where the dtype of an array decides the result ([x ** -0.5]
    below zero), a float64 array is one with real entries only
    ([is_real_mx]).  A value that leaves the field (a division by zero giving
    [inf], the square root of a negative real giving [nan]) ends the model
    with the outcome [NonFinite]: Python itself goes on with arrays that
    hold such entries, and the model follows the call no further.

    Arrays.  A 2-D array whose shape is fixed by the inputs is a MathComp
    matrix ['M[C]_(m, n)]; a 1-D array is a [seq C]; a 2-D array whose number
    of columns is only known at run time (the eigenvectors a solver hands
    back, and what is sliced out of them) is the [seq] of its columns.

    Library calls (scipy's and sklearn's solvers, numpy's random generator)
    and the helpers of kooplearn that are not part of these two files
    ([topk], [_rank_reveal], [modified_QR], [weighted_norm],
    [fuzzy_parse_complex]) are variables of the section: every theorem holds
    for whatever they compute.  [logger.warning] calls have no effect on
    what is returned and are left out. *)

From HB Require Import structures.
From Stdlib Require Import String Lia.
From mathcomp Require Import boot order algebra.
From mathcomp Require Import algC.

Set Implicit Arguments.
Unset Strict Implicit.
Unset Printing Implicit Defensive.

Import GRing.Theory Num.Theory.
Local Open Scope ring_scope.

(** ** Outcomes of a Python call *)

(** The exceptions that the modelled code, or a library it calls, raises. *)
Inductive exn : Type :=
  | AssertionError
  | ValueError
  | TypeError
  | IndexError
  | ZeroDivisionError
  | LinAlgError
  | ArpackError.

(** [Ok x]: the call returns [x].  [Raise e]: it raises [e] and returns
    nothing.  [NonFinite]: an array of the call got an [inf] or [nan] entry,
    which the exact field has no value for. *)
Inductive outcome (T : Type) : Type :=
  | Ok of T
  | Raise of exn
  | NonFinite.

Arguments Ok {T} _.
Arguments Raise {T} _.
Arguments NonFinite {T}.

Definition bind (A B : Type) (m : outcome A) (f : A -> outcome B) : outcome B :=
  match m with
  | Ok x => f x
  | Raise e => Raise e
  | NonFinite => NonFinite
  end.

Notation "'let!' x ':=' m 'in' k" := (bind m (fun x => k))
  (at level 200, x name, m at level 100, k at level 200, only parsing).
Notation "'let!' ' p ':=' m 'in' k" := (bind m (fun x => let 'p := x in k))
  (at level 200, p strict pattern, m at level 100, k at level 200, only parsing).

(** What a Python expression evaluates to when [None] is possible. *)
Inductive pyval (T : Type) : Type :=
  | PyNone
  | PyVal of T.

Arguments PyNone {T}.
Arguments PyVal {T} _.

(** ** Stand-ins for the library calls, over the algebraic numbers

    They are used at the end of the file, where the theorems are run on
    1 x 1 inputs. *)
Module Stub.

Definition unit_pair (n : nat) : outcome (seq algC * seq 'cV[algC]_n) :=
  Ok ([:: 1], [:: const_mx 1]).

Definition eigs (n : nat) (A : 'M[algC]_n) (k : int) (M : 'M[algC]_n) :=
  unit_pair n.

Definition eig_gen (n : nat) (A M : 'M[algC]_n) := unit_pair n.

(** A solver that hands back the eigenvalue [1] with an eigenvector whose
    entries are the imaginary unit. *)
Definition eig_gen_imag (n : nat) (A M : 'M[algC]_n)
    : outcome (seq algC * seq 'cV[algC]_n) :=
  Ok ([:: 1], [:: const_mx 'i]).

Definition eig (n : nat) (A : 'M[algC]_n) := unit_pair n.

Definition eigh (n : nat) (A : 'M[algC]_n) := unit_pair n.

(** A generalized symmetric solver that fails. *)
Definition eigh_gen_fails (n : nat) (A B : 'M[algC]_n)
    : outcome (seq algC * seq 'cV[algC]_n) :=
  Raise LinAlgError.

Definition eigsh (n : nat) (A : 'M[algC]_n) (k : int) := unit_pair n.

Definition eigsh_gen (n : nat) (A B : 'M[algC]_n) (k : int) := unit_pair n.

Definition eig_lr (r : nat) (W : 'M[algC]_r)
    : outcome (seq algC * seq 'cV[algC]_r * seq 'cV[algC]_r) :=
  Ok ([:: 1], [:: const_mx 1], [:: const_mx 1]).

Definition randomized_svd (n : nat) (A : 'M[algC]_n) (rank os ip : int)
    (seed : option int) : outcome (seq 'cV[algC]_n * seq algC) :=
  Ok ([:: const_mx 1], [:: 1]).







(** A sketch of one column of ones. *)
Definition one_column (n : nat) : {k : nat & 'M[algC]_(n, k)} :=
  existT _ 1%N (const_mx 1).

Definition rng_multivariate_normal (seed : option int) (n : nat)
    (Cov : 'M[algC]_n) (l : int) :=
  Ok (one_column n).

Definition rng_standard_normal (seed : option int) (n : nat) (l : int) :=
  Ok (one_column n).

Definition argsort (s : seq algC) : seq nat := [:: 0%N].

Definition argsort_int (s : seq nat) : seq nat := s.

Definition topk (s : seq algC) (k : int) : outcome (seq algC * seq nat) :=
  Ok (s, [:: 0%N]).

Definition rank_reveal (n : nat) (values : seq algC)
    (vectors : seq 'cV[algC]_n) (rank : option int)
    : outcome (seq 'cV[algC]_n * seq algC * seq algC) :=
  Ok (vectors, values, values).

Definition modified_QR (n : nat) (vectors : seq 'cV[algC]_n)
    (M : 'M[algC]_n) : outcome (seq 'cV[algC]_n * seq nat) :=
  Ok (vectors, iota 0 (size vectors)).

(** A weighted norm that finds every column of norm zero. *)
Definition zero_norm (r : nat) (vecs : seq 'cV[algC]_r) (W : 'M[algC]_r)
    : outcome (seq algC) :=
  Ok [seq 0 | _ <- vecs].

Definition fuzzy (s : seq algC) : seq algC := s.

End Stub.

(** More stand-ins, for the properties at the end of the section. *)
Module StubMore.

(** Eigenvalues with a negative and a non-real entry. *)
Definition eigvals (n : nat) (A : 'M[algC]_n) : outcome (seq algC) :=
  Ok [:: - 1; 'i; 4%:R].


(** A least-squares solver that hands back the matrix of ones. *)
Definition lstsq_ones (p n m : nat) (A : 'M[algC]_(p, n))
    (B : 'M[algC]_(p, m)) : outcome 'M[algC]_(n, m) :=
  Ok (const_mx 1).

End StubMore.

Section Dual.

Variable C : numClosedFieldType.

(** ** Python and numpy primitives *)

(** [n ** (-0.5)] for a Python int [n] (a [shape] entry): Python raises
    [ZeroDivisionError] at [0]. *)
Definition py_rsqrt (n : nat) : outcome C :=
  if n == 0%N then Raise ZeroDivisionError else Ok (sqrtC (n%:R : C))^-1.

(** [n ** -1] and [n ** (-1.0)] for a Python int [n]. *)
Definition py_recip (n : nat) : outcome C :=
  if n == 0%N then Raise ZeroDivisionError else Ok ((n%:R : C)^-1).

(** Python's [max(a, b)]: the first argument unless the second is larger. *)
Definition py_max (a b : C) : C := if a < b then b else a.

(** Python's [min(a, b)] on ints. *)
Definition py_min (a b : int) : int := if b < a then b else a.

(** [s[:m]] for a Python int [m]: a negative [m] counts from the end. *)
Definition py_slice_to (T : Type) (m : int) (s : seq T) : seq T :=
  match m with
  | Posz k => take k s
  | Negz k => take (size s - k.+1) s
  end.

(** [a.diagonal()] of a square array. *)
Definition np_diagonal (n : nat) (a : 'M[C]_n) : seq C :=
  [seq a i i | i <- enum 'I_n].

(** Position of entry [(i, j)] in the row-major buffer of an [n x n] array. *)
Definition flat_index (n : nat) (i j : 'I_n) : nat := (i * n + j)%N.

(** [np.fill_diagonal(a, val)] on a square 2-D array is the strided write
    [a.flat[::n+1] = val]: the [k]-th written position takes [val[k]]
    ([val] is repeated when it is shorter).  The call returns [None]; the
    result here is the buffer of [a] after the call. *)
Definition np_fill_diagonal (n : nat) (a : 'M[C]_n) (val : seq C) : 'M[C]_n :=
  \matrix_(i, j)
    let k := flat_index i j in
    if (k %% n.+1 == 0)%N then nth 0 val ((k %/ n.+1) %% size val) else a i j.

(** [np.linalg.multi_dot] on three arrays picks the cheaper bracketing. *)
Definition multi_dot3 (m n p q : nat)
    (A : 'M[C]_(m, n)) (B : 'M[C]_(n, p)) (D : 'M[C]_(p, q)) : 'M[C]_(m, q) :=
  let cost1 := (m * p * (n + q))%N in
  let cost2 := (n * q * (m + p))%N in
  if (cost1 < cost2)%N then (A *m B) *m D else A *m (B *m D).

(** [np.linalg.inv]: [LinAlgError] on a singular matrix. *)
Definition np_inv (r : nat) (a : 'M[C]_r) : outcome 'M[C]_r :=
  if a \in unitmx then Ok (invmx a) else Raise LinAlgError.

(** The loop of [np.linalg.matrix_power] for an exponent above 3: the bits
    of [n] from the least significant one, [z] running through the repeated
    squares of [a]; [z] and [result] start as [None].  The loop runs while
    [n > 0]; [fuel] bounds the number of rounds. *)
Fixpoint matrix_power_loop (r : nat) (fuel n : nat) (a : 'M[C]_r)
    (z result : option 'M[C]_r) : option 'M[C]_r :=
  match fuel with
  | 0%N => result
  | fuel'.+1 =>
    if (0 < n)%N then
      let z' := if z is Some z0 then z0 *m z0 else a in
      let result' :=
        if odd n then Some (if result is Some r0 then r0 *m z' else z')
        else result in
      matrix_power_loop fuel' (n %/ 2) a (Some z') result'
    else result
  end.

(** [np.linalg.matrix_power(a, n)] for a square [a] and a Python int [n]. *)
Definition matrix_power (r : nat) (a : 'M[C]_r) (n : int) : outcome 'M[C]_r :=
  if n == 0 then Ok 1%:M
  else
    let! a := (if n < 0 then np_inv a else Ok a) in
    let k := `|n|%N in
    if k == 1%N then Ok a
    else if k == 2%N then Ok (a *m a)
    else if k == 3%N then Ok ((a *m a) *m a)
    else if matrix_power_loop k k a None None is Some res then Ok res
    else Raise TypeError.

(** ** [regularize] *)

(** The [else] branch: a new array, [M] is left alone. *)
Definition regularize_new (n : nat) (M : 'M[C]_n) (reg : C) : 'M[C]_n :=
  M + (n%:R * reg) *: 1%:M.

(** [regularize(M, reg, inplace)]: what the call returns, and the buffer of
    [M] after the call. *)
Definition regularize (n : nat) (M : 'M[C]_n) (reg : C) (inplace : bool)
    : pyval 'M[C]_n * 'M[C]_n :=
  if inplace then
    (PyNone, np_fill_diagonal M [seq d + reg * n%:R | d <- np_diagonal M])
  else (PyVal (regularize_new M reg), M).

(** ** [predict] *)

Definition predict (m n r d : nat) (num_steps : int)
    (U V : 'M[C]_(n, r)) (K_YX : 'M[C]_n) (K_Xin_X : 'M[C]_(m, n))
    (obs_train_Y : 'M[C]_(n, d)) : outcome 'M[C]_(m, d) :=
  let dim := n in
  let! rsqrt_dim := py_rsqrt dim in
  let K_dot_U := (rsqrt_dim *: K_Xin_X) *m U in
  let V_dot_obs := (rsqrt_dim *: V^T) *m obs_train_Y in
  let! rdim := py_recip dim in
  let V_K_XY_U := rdim *: multi_dot3 V^T K_YX U in
  let! M := matrix_power V_K_XY_U (num_steps - 1) in
  Ok (multi_dot3 K_dot_U M V_dot_obs).

(** The [k]-fold product of a square matrix with itself, [1] for [k = 0]. *)
Fixpoint mx_pow (r : nat) (A : 'M[C]_r) (k : nat) : 'M[C]_r :=
  if k is k'.+1 then A *m mx_pow A k' else 1%:M.

(** ** [kooplearn.jax.linalg.spd_norm] *)

(** [jnp.vdot(a, b)]: the first argument is conjugated. *)
Definition jnp_vdot (n : nat) (a b : 'cV[C]_n) : C :=
  \sum_i (a i 0)^* * b i 0.

(** [jnp.sqrt] of a real number: [nan] below zero. *)
Definition jnp_sqrt (x : C) : outcome C :=
  if 0 <= x then Ok (sqrtC x) else NonFinite.

(** A real array ([Float[Array, "n n"]]) is one whose entries lie in the
    real subfield; [spd_norm] does not depend on it. *)
Definition spd_norm (n : nat) (vec : 'cV[C]_n) (spd_matrix : 'M[C]_n)
    : outcome C :=
  let _v := spd_matrix *m vec in
  let _v_T := spd_matrix^T *m vec in
  jnp_sqrt (2^-1 * 'Re (jnp_vdot vec (_v + _v_T))).

(** The conjugate transpose [v^H] of a vector. *)
Definition conj_tr (n : nat) (v : 'cV[C]_n) : 'rV[C]_n :=
  (map_mx Num.conj v)^T.

(** The symmetrization [(M + M^T) / 2]. *)
Definition symmetrize (n : nat) (M : 'M[C]_n) : 'M[C]_n :=
  2^-1 *: (M + M^T).

(** The weighted norm under [S] in the words of the specification: the
    square root of the real part of [v^H S v]. *)
Definition weighted_norm_spec (n : nat) (v : 'cV[C]_n) (S : 'M[C]_n)
    : outcome C :=
  jnp_sqrt ('Re ((conj_tr v *m S *m v) 0 0)).

(** ** Indexing and broadcasting on arrays with a run-time width *)

(** [s[idx]] for an integer index array ([s[:, idx]] on the columns of a
    2-D array): [IndexError] when an index is out of range. *)
Definition np_take (T : Type) (x0 : T) (s : seq T) (idx : seq nat)
    : outcome (seq T) :=
  if all (fun i => (i < size s)%N) idx then Ok [seq nth x0 s i | i <- idx]
  else Raise IndexError.

(** [vecs * w] for a 2-D array of columns [vecs] and a 1-D array [w]:
    numpy broadcasts along the columns, and raises [ValueError] when the
    widths differ and neither is 1. *)
Definition np_mul_cols (r : nat) (vecs : seq 'cV[C]_r) (w : seq C)
    : outcome (seq 'cV[C]_r) :=
  if size vecs == size w then Ok [seq vw.2 *: vw.1 | vw <- zip vecs w]
  else if size w == 1%N then Ok [seq head 0 w *: v | v <- vecs]
  else if size vecs == 1%N then Ok [seq c *: head 0 vecs | c <- w]
  else Raise ValueError.

(** [x ** -1] entry by entry: [None] is the [inf] numpy writes at a zero
    entry (with a warning, no exception). *)
Definition np_reciprocal (x : C) : option C :=
  if x == 0 then None else Some x^-1.

(** [np.where(mask, 0.0, y)]: both [mask] and [y] are fully evaluated
    arrays of one shape; the result takes [0.0] where [mask] holds. *)
Definition np_where0 (mask : seq bool) (y : seq (option C)) : seq (option C) :=
  [seq if my.1 then Some 0 else my.2 | my <- zip mask y].

(** An array enters further arithmetic: every entry must be in the field. *)
Definition finite (y : seq (option C)) : outcome (seq C) :=
  if all isSome y then Ok (pmap id y) else NonFinite.

(** [A @ B] for [B] given by its columns. *)
Definition matmul_cols (m n : nat) (A : 'M[C]_(m, n)) (B : seq 'cV[C]_n)
    : seq 'cV[C]_m :=
  [seq A *m b | b <- B].

(** [np.diag(vl.T @ W @ vr)]: the entries [vl_j^T W vr_j], as many as the
    narrower of [vl] and [vr] has columns. *)
Definition diag_pairing (r : nat) (vl : seq 'cV[C]_r) (W : 'M[C]_r)
    (vr : seq 'cV[C]_r) : seq C :=
  [seq (lr.1^T *m W *m lr.2) 0 0 | lr <- zip vl vr].

(** ** [estimator_eig] *)

(** [scipy.linalg.eig(W, left=True, right=True)]: eigenvalues, left and
    right eigenvectors. *)
Variable scipy_eig_lr :
  forall r : nat, 'M[C]_r -> outcome (seq C * seq 'cV[C]_r * seq 'cV[C]_r).

(** [kooplearn._src.utils.fuzzy_parse_complex]. *)
Variable fuzzy_parse_complex : seq C -> seq C.

(** [np.argsort] on a 1-D array. *)
Variable np_argsort : seq C -> seq nat.

(** [kooplearn._src.linalg.weighted_norm(vecs, M)]: one norm per column. *)
Variable weighted_norm :
  forall r : nat, seq 'cV[C]_r -> 'M[C]_r -> outcome (seq C).

(** [r_normr = np.where(norm_r == 0.0, 0.0, norm_r**-1)]. *)
Definition r_normr_of (norm_r : seq C) : seq (option C) :=
  np_where0 [seq x == 0 | x <- norm_r] [seq np_reciprocal x | x <- norm_r].

(** [r_norm_l = np.where(np.abs(norm_l) == 0, 0.0, norm_l**-1)]. *)
Definition r_norm_l_of (norm_l : seq C) : seq (option C) :=
  np_where0 [seq `|x| == 0 | x <- norm_l] [seq np_reciprocal x | x <- norm_l].

(** "Normalization in RKHS": [vr * r_normr]. *)
Definition normalize_right (r : nat) (vr : seq 'cV[C]_r) (norm_r : seq C)
    : outcome (seq 'cV[C]_r) :=
  let! r_normr := finite (r_normr_of norm_r) in
  np_mul_cols vr r_normr.

(** "Bi-orthogonality of left eigenfunctions": [vl * r_norm_l]. *)
Definition rescale_left (r : nat) (vl : seq 'cV[C]_r) (W_YX : 'M[C]_r)
    (vr : seq 'cV[C]_r) : outcome (seq 'cV[C]_r) :=
  let norm_l := diag_pairing vl W_YX vr in
  let! r_norm_l := finite (r_norm_l_of norm_l) in
  np_mul_cols vl r_norm_l.

Definition estimator_eig (n r : nat) (U V : 'M[C]_(n, r)) (K_X K_YX : 'M[C]_n)
    : outcome (seq C * seq 'cV[C]_n * seq 'cV[C]_n) :=
  let! r_dim := py_recip n in
  let W_YX := multi_dot3 V^T (r_dim *: K_YX) U in
  let W_X := multi_dot3 U^T (r_dim *: K_X) U in
  let! '(values, vl, vr) := scipy_eig_lr W_YX in
  let values := fuzzy_parse_complex values in
  let r_perm := np_argsort values in
  let! vr := np_take 0 vr r_perm in
  let l_perm := np_argsort [seq x^* | x <- values] in
  let! vl := np_take 0 vl l_perm in
  let! values := np_take 0 values r_perm in
  let! norm_r := weighted_norm vr W_X in
  let! vr := normalize_right vr norm_r in
  let! vl := rescale_left vl W_YX vr in
  Ok (values, matmul_cols V vl, matmul_cols U vr).

(** ** Library calls of the fit functions *)

(** [np.finfo(dtype).eps] of the kernel matrices. *)
Variable finfo_eps : C.

(** [scipy.sparse.linalg.eigs(A, k=k, M=M)], [scipy.linalg.eig(A, M)] and
    [scipy.linalg.eig(A)]: eigenvalues and the columns of eigenvectors. *)
Variable scipy_eigs :
  forall n : nat, 'M[C]_n -> int -> 'M[C]_n -> outcome (seq C * seq 'cV[C]_n).
Variable scipy_eig_gen :
  forall n : nat, 'M[C]_n -> 'M[C]_n -> outcome (seq C * seq 'cV[C]_n).
Variable scipy_eig :
  forall n : nat, 'M[C]_n -> outcome (seq C * seq 'cV[C]_n).

(** [scipy.linalg.eigh(A)], [eigh(A, B)], [scipy.sparse.linalg.eigsh(A, k=k)]
    and [eigsh(A, M=M, k=k, which="LM")]. *)
Variable scipy_eigh :
  forall n : nat, 'M[C]_n -> outcome (seq C * seq 'cV[C]_n).
Variable scipy_eigh_gen :
  forall n : nat, 'M[C]_n -> 'M[C]_n -> outcome (seq C * seq 'cV[C]_n).
Variable scipy_eigsh :
  forall n : nat, 'M[C]_n -> int -> outcome (seq C * seq 'cV[C]_n).
Variable scipy_eigsh_gen :
  forall n : nat, 'M[C]_n -> 'M[C]_n -> int -> outcome (seq C * seq 'cV[C]_n).

(** [sklearn.utils.extmath.randomized_svd(M, rank, n_oversamples=..,
    n_iter=.., random_state=..)]: left vectors and singular values. *)
Variable randomized_svd :
  forall n : nat, 'M[C]_n -> int -> int -> int -> option int ->
  outcome (seq 'cV[C]_n * seq C).

(** [scipy.linalg.lstsq(A, B)[0]], for [B] of a fixed shape and for [B]
    given by its columns. *)
Variable scipy_lstsq :
  forall p n m : nat, 'M[C]_(p, n) -> 'M[C]_(p, m) -> outcome 'M[C]_(n, m).
Variable scipy_lstsq_cols :
  forall p n : nat, 'M[C]_(p, n) -> seq 'cV[C]_p -> outcome (seq 'cV[C]_n).

(** [scipy.linalg.pinvh], [cho_factor] (the factor and its [lower] flag) and
    [cho_solve]. *)
Variable scipy_pinvh : forall n : nat, 'M[C]_n -> outcome 'M[C]_n.
Variable scipy_cho_factor : forall n : nat, 'M[C]_n -> outcome ('M[C]_n * bool).
Variable scipy_cho_solve :
  forall n k : nat, 'M[C]_n * bool -> 'M[C]_(n, k) -> outcome 'M[C]_(n, k).

(** [scipy.linalg.qr(Om, mode="economic")[0]]: the width of [Q] is the
    smaller of the two dimensions of [Om]. *)
Variable scipy_qr_economic :
  forall n k : nat, 'M[C]_(n, k) -> outcome {k' : nat & 'M[C]_(n, k')}.

(** [np.random.default_rng(seed)] followed by
    [multivariate_normal(zeros(n), Cov, size=l).T] or by
    [standard_normal(size=(n, l))]. *)
Variable rng_multivariate_normal :
  option int -> forall n : nat, 'M[C]_n -> int -> outcome {k : nat & 'M[C]_(n, k)}.
Variable rng_standard_normal :
  option int -> forall n : nat, int -> outcome {k : nat & 'M[C]_(n, k)}.

(** [np.argsort] on an integer array. *)
Variable np_argsort_int : seq nat -> seq nat.

(** [kooplearn._src.utils.topk(vec, k)]: values and indices. *)
Variable topk : seq C -> int -> outcome (seq C * seq nat).

(** [kooplearn._src.linalg._rank_reveal(values, vectors, rank)]: vectors,
    values and the reciprocal square roots of the values. *)
Variable _rank_reveal :
  forall n : nat, seq C -> seq 'cV[C]_n -> option int ->
  outcome (seq 'cV[C]_n * seq C * seq C).

(** [kooplearn._src.linalg.modified_QR(A, M=M, column_pivoting=True)]: the
    orthogonalized columns and the column permutation. *)
Variable modified_QR :
  forall n : nat, seq 'cV[C]_n -> 'M[C]_n -> outcome (seq 'cV[C]_n * seq nat).

(** ** [fit_reduced_rank_regression] *)

(** Second step of the filtering: the mask entry of one eigenvalue. *)
Definition is_invalid (x : C) : bool := ('Re x < 0) || ('Im x != 0).

(** [np.argmax] on a boolean array: the first [True], [0] when there is
    none. *)
Definition np_argmax (mask : seq bool) : nat :=
  if has id mask then find id mask else 0%N.

(** Third step of the filtering, on the sorted eigenvalues and eigenvector
    columns: [svals_filtered] and [vecs_filtered]. *)
Definition filter_first_invalid (T : Type) (rank : int)
    (sigma_sq : seq C) (vecs : seq T) : seq C * seq T :=
  let is_invalid := [seq is_invalid x | x <- sigma_sq] in
  if has id is_invalid then
    let first_invalid := np_argmax is_invalid in
    (py_slice_to (py_min first_invalid rank) sigma_sq,
     py_slice_to (py_min first_invalid rank) vecs)
  else (py_slice_to rank sigma_sq, py_slice_to rank vecs).

(** [np.all(np.imag(v) == 0)] on one column. *)
Definition imag_is_zero (n : nat) (v : 'cV[C]_n) : bool :=
  [forall i, 'Im (v i 0) == 0].

(** [np.real] on the columns of a 2-D array. *)
Definition np_real_cols (n : nat) (vecs : seq 'cV[C]_n) : seq 'cV[C]_n :=
  [seq map_mx (@Re C) v | v <- vecs].

(** [x ** 0.5] on a real array: [nan] below zero. *)
Definition np_sqrt_real (x : C) : option C :=
  if 0 <= x then Some (sqrtC x) else None.

(** Seventh step, for one column [v] of [vecs_filtered]: the column of
    [U = vecs_filtered / norm_sq].  [c] is [n_pts ** (-0.5)]. *)
Definition rrr_unit_col (n : nat) (kernel_X : 'M[C]_n) (tikhonov_reg c : C)
    (v : 'cV[C]_n) : option 'cV[C]_n :=
  let kernel_X_vec := (c *: kernel_X) *m v in
  let norm_sq :=
    np_sqrt_real (\sum_i (kernel_X_vec i 0 ^+ 2
                          + tikhonov_reg * kernel_X_vec i 0 * v i 0
                            * sqrtC (n%:R : C))) in
  if norm_sq is Some d then if d == 0 then None else Some (d^-1 *: v)
  else None.

(** Every column of an array that enters further arithmetic must be in the
    field. *)
Definition finite_cols (n : nat) (vecs : seq (option 'cV[C]_n))
    : outcome (seq 'cV[C]_n) :=
  if all isSome vecs then Ok (pmap id vecs) else NonFinite.

(** The code after the solver call: filtering (steps one to five) and
    normalization (step seven). *)
Definition rrr_filter_normalize (n : nat) (kernel_X : 'M[C]_n)
    (tikhonov_reg : C) (rank : int) (_return_singular_values : bool)
    (sigma_sq : seq C) (vecs : seq 'cV[C]_n)
    : outcome (seq 'cV[C]_n * seq 'cV[C]_n * option (seq C)) :=
  let! '(_, sort_perm) := topk [seq `|x| | x <- sigma_sq] (size sigma_sq) in
  let! sigma_sq := np_take 0 sigma_sq sort_perm in
  let! vecs := np_take 0 vecs sort_perm in
  let '(svals_filtered, vecs_filtered) :=
    filter_first_invalid rank sigma_sq vecs in
  if ~~ all (@imag_is_zero n) vecs_filtered then Raise AssertionError
  else
    let vecs_filtered := np_real_cols vecs_filtered in
    let svals_filtered := [seq 'Re x | x <- svals_filtered] in
    let! c := py_rsqrt n in
    let! U := finite_cols
                [seq rrr_unit_col kernel_X tikhonov_reg c v
                | v <- vecs_filtered] in
    let V := matmul_cols kernel_X U in
    Ok (U, V, if _return_singular_values then Some sigma_sq else None).

(** The solver dispatch of [fit_reduced_rank_regression]: the [else]
    branch, commented ['full'] in the source, takes every other tag. *)
Definition rrr_solve (n : nat) (A M : 'M[C]_n) (rank : int)
    (svd_solver : string) : outcome (seq C * seq 'cV[C]_n) :=
  if (svd_solver =? "arnoldi")%string then
    let _num_arnoldi_eigs := py_min (rank + 3) n in
    scipy_eigs A _num_arnoldi_eigs M
  else scipy_eig_gen A M.

Definition fit_reduced_rank_regression (n : nat) (kernel_X kernel_Y : 'M[C]_n)
    (tikhonov_reg : C) (rank : int) (svd_solver : string)
    (_return_singular_values : bool)
    : outcome (seq 'cV[C]_n * seq 'cV[C]_n * option (seq C)) :=
  let n_pts := n in
  let penalty := py_max finfo_eps tikhonov_reg in
  let! c := py_rsqrt n_pts in
  let A := (c *: kernel_Y) *m (c *: kernel_X) in
  let M := regularize_new kernel_X penalty in
  let! '(sigma_sq, vecs) := rrr_solve A M rank svd_solver in
  rrr_filter_normalize kernel_X tikhonov_reg rank _return_singular_values
    sigma_sq vecs.

(** ** [fit_principal_component_regression] *)

(** The solver dispatch of [fit_principal_component_regression]. *)
Definition pcr_solve (n : nat) (reg_K_X : 'M[C]_n) (rank : int)
    (svd_solver : string) : outcome (seq C * seq 'cV[C]_n) :=
  if (svd_solver =? "arnoldi")%string then
    let _num_arnoldi_eigs := py_min (rank + 3) n in
    scipy_eigsh reg_K_X _num_arnoldi_eigs
  else if (svd_solver =? "full")%string then scipy_eigh reg_K_X
  else Raise ValueError.

(** [np.sqrt(dim) * vectors * rsqrt_values]. *)
Definition rescale_cols (n : nat) (dim : nat) (vectors : seq 'cV[C]_n)
    (rsqrt_values : seq C) : outcome (seq 'cV[C]_n) :=
  np_mul_cols [seq sqrtC (dim%:R : C) *: v | v <- vectors] rsqrt_values.

Definition fit_principal_component_regression (n : nat) (K_X : 'M[C]_n)
    (tikhonov_reg : C) (rank : option int) (svd_solver : string)
    : outcome (seq 'cV[C]_n * seq 'cV[C]_n) :=
  let dim := n in
  let rank : int := if rank is Some r then r else dim in
  if ~~ (rank <= dim) then Raise AssertionError
  else
    let reg_K_X := regularize_new K_X tikhonov_reg in
    let! '(values, vectors) := pcr_solve reg_K_X rank svd_solver in
    let! '(vectors, values, rsqrt_values) :=
      _rank_reveal values vectors (Some rank) in
    let! vectors := rescale_cols dim vectors rsqrt_values in
    Ok (vectors, vectors).

(** ** [fit_rand_principal_component_regression] *)

Definition fit_rand_principal_component_regression (n : nat) (K_X : 'M[C]_n)
    (tikhonov_reg : C) (rank n_oversamples iterated_power : int)
    (rng_seed : option int) (_return_singular_values : bool)
    : outcome (seq 'cV[C]_n * seq 'cV[C]_n * option (seq C)) :=
  let dim := n in
  let! '(vectors, values) :=
    randomized_svd (regularize_new K_X tikhonov_reg) rank n_oversamples
      iterated_power rng_seed in
  let! '(vectors, values, rsqrt_values) :=
    _rank_reveal values vectors (Some rank) in
  let! vectors := rescale_cols dim vectors rsqrt_values in
  Ok (vectors, vectors,
      if _return_singular_values then Some values else None).

(** ** [fit_nystroem_reduced_rank_regression] *)

(** [rank + 3] and [width < rank] for [rank: Optional[int]]: [TypeError]
    on [None]. *)
Definition py_int (rank : option int) : outcome int :=
  if rank is Some r then Ok r else Raise TypeError.

(** The solver dispatch of the two Nystroem fit functions, for the
    generalized problem [A v = s B v]. *)
Definition nystroem_solve (n : nat) (A B : 'M[C]_n) (rank : option int)
    (svd_solver : string) : outcome (seq C * seq 'cV[C]_n) :=
  if (svd_solver =? "full")%string then scipy_eigh_gen A B
  else if (svd_solver =? "arnoldi")%string then
    let! rank := py_int rank in
    let _num_arnoldi_eigs := py_min (rank + 3) n in
    scipy_eigsh_gen A B _num_arnoldi_eigs
  else Raise ValueError.

(** Padding with zero columns up to [rank], and the assertion after it. *)
Definition pad_to_rank (n : nat) (vectors : seq 'cV[C]_n) (rank : option int)
    : outcome (seq 'cV[C]_n) :=
  let! rank := py_int rank in
  if (size vectors : int) < rank then
    let _zeroes : seq 'cV[C]_n := nseq `|rank - size vectors| 0 in
    let vectors := vectors ++ _zeroes in
    if (size vectors : int) == rank then Ok vectors
    else Raise AssertionError
  else Ok vectors.

(** The code after the solver call: numerical rank detection, restoring
    the column order, padding. *)
Definition nystroem_rrr_filter (n : nat) (kernel_XYX : 'M[C]_n)
    (rank : option int) (vectors : seq 'cV[C]_n) : outcome (seq 'cV[C]_n) :=
  let! '(vectors, columns_permutation) := modified_QR vectors kernel_XYX in
  let! vectors := np_take 0 vectors (np_argsort_int columns_permutation) in
  pad_to_rank vectors rank.

Definition fit_nystroem_reduced_rank_regression (N m : nat)
    (kernel_X kernel_Y : 'M[C]_m) (kernel_Xnys kernel_Ynys : 'M[C]_(N, m))
    (tikhonov_reg : C) (rank : option int) (svd_solver : string)
    (_return_singular_values : bool)
    : outcome (seq 'cV[C]_m * seq 'cV[C]_m * option (seq C)) :=
  let dim := m in
  let eps := m%:R * finfo_eps in
  let reg := py_max eps tikhonov_reg in
  let kernel_YX_nys := kernel_Ynys^T *m kernel_Xnys in
  let! _tmp_YX := scipy_lstsq kernel_Y kernel_YX_nys in
  let kernel_XYX := kernel_YX_nys^T *m _tmp_YX in
  let kernel_XYX := 2^-1 *: (kernel_XYX + kernel_XYX^T) in
  let kernel_Xnys_sq :=
    kernel_Xnys^T *m kernel_Xnys + (reg * dim%:R) *: kernel_X in
  let! '(values, vectors) :=
    nystroem_solve kernel_XYX (regularize_new kernel_Xnys_sq eps) rank
      svd_solver in
  let! vectors := nystroem_rrr_filter kernel_XYX rank vectors in
  let! W := scipy_lstsq kernel_Xnys_sq kernel_XYX in
  let U := matmul_cols W vectors in
  let V := matmul_cols _tmp_YX vectors in
  Ok (np_real_cols U, np_real_cols V,
      if _return_singular_values then Some values else None).

(** ** [fit_nystroem_principal_component_regression] *)

Definition fit_nystroem_principal_component_regression (N m : nat)
    (kernel_X kernel_Y : 'M[C]_m) (kernel_Xnys kernel_Ynys : 'M[C]_(N, m))
    (tikhonov_reg : C) (rank : option int) (svd_solver : string)
    : outcome (seq 'cV[C]_m * seq 'cV[C]_m) :=
  let dim := m in
  let eps := m%:R * finfo_eps in
  let reg := py_max eps tikhonov_reg in
  let kernel_Xnys_sq := kernel_Xnys^T *m kernel_Xnys in
  let! '(values, vectors) :=
    nystroem_solve kernel_Xnys_sq (regularize_new kernel_X reg) rank
      svd_solver in
  let! '(vectors, values, rsqrt_values) := _rank_reveal values vectors rank in
  let! U := rescale_cols dim vectors rsqrt_values in
  (* multi_dot([kernel_Ynys.T, kernel_Xnys, vectors]): over a field the
     bracketing it picks does not change the product *)
  let V := matmul_cols kernel_Ynys^T (matmul_cols kernel_Xnys vectors) in
  let! V := scipy_lstsq_cols (regularize_new kernel_Y eps) V in
  let! V := rescale_cols dim V rsqrt_values in
  Ok (U, V).

(** ** [fit_rand_reduced_rank_regression] *)

(** One round of the powered randomized rangefinder. *)
Definition rangefinder_round (n : nat) (K_Y : 'M[C]_n) (inv_dim alpha : C)
    (c_low : 'M[C]_n * bool) (Om : {k : nat & 'M[C]_(n, k)})
    : outcome {k : nat & 'M[C]_(n, k)} :=
  let! S := scipy_cho_solve c_low (projT2 Om) in
  scipy_qr_economic ((inv_dim *: K_Y) *m (projT2 Om - alpha *: S)).

(** [for _ in range(t): Om = round(Om)]. *)
Fixpoint rangefinder (n : nat) (t : nat) (K_Y : 'M[C]_n) (inv_dim alpha : C)
    (c_low : 'M[C]_n * bool) (Om : {k : nat & 'M[C]_(n, k)})
    : outcome {k : nat & 'M[C]_(n, k)} :=
  if t is t'.+1 then
    let! Om := rangefinder_round K_Y inv_dim alpha c_low Om in
    rangefinder t' K_Y inv_dim alpha c_low Om
  else Ok Om.

(** [range(t)] runs [t] times, and not at all for a negative [t]. *)
Definition py_range_len (t : int) : nat := if t is Posz k then k else 0%N.

(** The sketch [Om] (lines 114 to 131). *)
Definition rand_rrr_sketch (n : nat) (K_X K_Y : 'M[C]_n) (tikhonov_reg : C)
    (rank n_oversamples : int) (optimal_sketching : bool)
    (iterated_power : int) (rng_seed : option int)
    : outcome ((C * C * ('M[C]_n * bool)) * {k : nat & 'M[C]_(n, k)}) :=
  let dim := n in
  let! inv_dim := py_recip dim in
  let alpha := dim%:R * tikhonov_reg in
  let tikhonov := alpha *: 1%:M in
  let K_reg := K_X + tikhonov in
  let! c_low := scipy_cho_factor K_reg in
  let l := rank + n_oversamples in
  let! Om :=
    if optimal_sketching then
      let Cov := inv_dim *: K_Y in
      rng_multivariate_normal rng_seed Cov l
    else rng_standard_normal rng_seed n l in
  let! Om :=
    rangefinder (py_range_len iterated_power) K_Y inv_dim alpha c_low Om in
  Ok (inv_dim, alpha, c_low, Om).

(** The dtype of an array, read off its entries: a float64 array is one
    whose entries are all real (the kernel matrices are float64 arrays; a
    complex128 array that happens to hold real entries only is not told
    apart from it). *)
Definition is_real_mx (m n : nat) (A : 'M[C]_(m, n)) : bool :=
  [forall i, forall j, 'Im (A i j) == 0].

(** "Generation of matrices U and V": the [try] runs [eigh(F_1, F_0)]; the
    [except] clause catches [LinAlgError] alone and runs
    [eig(pinvh(F_0) @ F_1)].  The flag tells whether [Q] is a complex
    array.  [eigh] hands back eigenvectors of the dtype of its arguments.
    [scipy.linalg.eig] does so for a complex argument; for a real one it
    computes [only_real = numpy.all(w.imag == 0.0)] and turns the
    eigenvectors into a complex array only when [only_real] fails. *)
Definition rand_rrr_eigen (k : nat) (F_0 F_1 : 'M[C]_k)
    : outcome (seq C * seq 'cV[C]_k * bool) :=
  let complex_args := ~~ (is_real_mx F_0 && is_real_mx F_1) in
  match scipy_eigh_gen F_1 F_0 with
  | Ok (sigma_sq, Q) => Ok (sigma_sq, Q, complex_args)
  | Raise LinAlgError =>
    let! P := scipy_pinvh F_0 in
    let! '(sigma_sq, Q) := scipy_eig (P *m F_1) in
    let only_real := all (fun w => 'Im w == 0) sigma_sq in
    Ok (sigma_sq, Q, complex_args || ~~ only_real)
  | Raise e => Raise e
  | NonFinite => NonFinite
  end.

(** [x ** -0.5] entry by entry: [inf] at zero; on a real array [nan] below
    zero, on a complex one the principal root. *)
Definition np_rsqrt (is_complex : bool) (x : C) : option C :=
  if x == 0 then None
  else if is_complex || (0 <= x) then Some (sqrtC x)^-1
  else None.

(** The code after the eigenproblem (lines 145 to 156), for the sketch
    [Om] of width [k]. *)
Definition rand_rrr_project (n k : nat) (KOm KOmp : 'M[C]_(n, k))
    (F_0 : 'M[C]_k) (rank : int) (_return_singular_values : bool)
    (sigma_sq : seq C) (Q : seq 'cV[C]_k) (is_complex : bool)
    : outcome (seq 'cV[C]_n * seq 'cV[C]_n * option (seq C)) :=
  let Q_norm := [seq jnp_vdot q (F_0 *m q) | q <- Q] in
  let! Q_rnorm := finite [seq np_rsqrt is_complex x | x <- Q_norm] in
  let! Q := np_mul_cols Q Q_rnorm in
  let! '(_, _idxs) := topk [seq 'Re x | x <- sigma_sq] rank in
  let sigma_sq := [seq 'Re x | x <- sigma_sq] in
  let! Q := np_take 0 Q _idxs in
  let U := [seq sqrtC (n%:R : C) *: u | u <- matmul_cols KOm Q] in
  let V := [seq sqrtC (n%:R : C) *: v | v <- matmul_cols KOmp Q] in
  Ok (np_real_cols U, np_real_cols V,
      if _return_singular_values then Some sigma_sq else None).

(** From the sketch on (lines 133 to 156). *)
Definition rand_rrr_from_sketch (n k : nat) (K_Y : 'M[C]_n)
    (inv_dim alpha : C) (c_low : 'M[C]_n * bool) (Om : 'M[C]_(n, k))
    (rank : int) (_return_singular_values : bool)
    : outcome (seq 'cV[C]_n * seq 'cV[C]_n * option (seq C)) :=
  let! KOm := scipy_cho_solve c_low Om in
  let KOmp := Om - alpha *: KOm in
  let F_0 := Om^T *m KOmp in
  let F_1 := KOmp^T *m (inv_dim *: (K_Y *m KOmp)) in
  let! '(sigma_sq, Q, is_complex) := rand_rrr_eigen F_0 F_1 in
  rand_rrr_project KOm KOmp F_0 rank _return_singular_values sigma_sq Q
    is_complex.

Definition fit_rand_reduced_rank_regression (n : nat) (K_X K_Y : 'M[C]_n)
    (tikhonov_reg : C) (rank n_oversamples : int) (optimal_sketching : bool)
    (iterated_power : int) (rng_seed : option int)
    (_return_singular_values : bool)
    : outcome (seq 'cV[C]_n * seq 'cV[C]_n * option (seq C)) :=
  let! '(inv_dim, alpha, c_low, Om) :=
    rand_rrr_sketch K_X K_Y tikhonov_reg rank n_oversamples
      optimal_sketching iterated_power rng_seed in
  rand_rrr_from_sketch K_Y inv_dim alpha c_low (projT2 Om) rank
    _return_singular_values.

(** ** [svdvals] *)

(** [scipy.linalg.eig(A, left=False, right=False)]: the eigenvalues alone. *)
Variable scipy_eigvals : forall n : nat, 'M[C]_n -> outcome (seq C).

(** [v[v < 0] = 0] on a real array. *)
Definition clip_negative (v : seq C) : seq C :=
  [seq if x < 0 then 0 else x | x <- v].

Definition svdvals (n r : nat) (U V : 'M[C]_(n, r)) (K_X K_Y : 'M[C]_n)
    : outcome (seq C) :=
  let! rdim := py_recip n in
  let A := multi_dot3 V^T (rdim *: K_Y) V in
  let B := multi_dot3 U^T (rdim *: K_X) U in
  let! v := scipy_eigvals (A *m B) in
  let v := [seq 'Re x | x <- v] in
  let v := clip_negative v in
  finite [seq np_sqrt_real x | x <- v].

(** ** [evaluate_eigenfunction] and [estimator_modes] *)

(** [multi_dot] on two arrays is the plain product. *)
Definition evaluate_eigenfunction (m n r : nat) (K_Xin_X_or_Y : 'M[C]_(m, n))
    (vr_or_vl : 'M[C]_(n, r)) : outcome 'M[C]_(m, r) :=
  let! rsqrt_dim := py_rsqrt n in
  Ok ((rsqrt_dim *: K_Xin_X_or_Y) *m vr_or_vl).

(** The result is the 3-index array [rv_in[:, :, None] * lv_obs[:, None, :]],
    here the family of its [rank] slices, each of shape
    [num_init_conditions x num_training_points]. *)
Definition estimator_modes (m n N r : nat) (K_Xin_X : 'M[C]_(m, n))
    (rv : 'M[C]_(n, r)) (lv : 'M[C]_(N, r))
    : outcome {ffun 'I_r -> 'M[C]_(m, N)} :=
  let! r_dim := py_rsqrt N in
  let! E := evaluate_eigenfunction K_Xin_X rv in
  let rv_in := E^T in
  let lv_obs := r_dim *: lv^T in
  Ok [ffun k => \matrix_(i, j) (rv_in k i * lv_obs k j)].

(** ** [kooplearn.jax.linalg.generalized_eigh] *)

(** [jnp.linalg.eigh]: eigenvalues and the matrix of eigenvectors. *)
Variable jnp_eigh : forall n : nat, 'M[C]_n -> outcome ('rV[C]_n * 'M[C]_n).

(** [jnp.diag(jax.lax.rsqrt(Lambda))]: [inf] at zero and [nan] below. *)
Definition rsqrt_diag (n : nat) (Lambda : 'rV[C]_n) : outcome 'M[C]_n :=
  if [forall i, 0 < Lambda 0 i] then
    Ok (diag_mx (map_mx (fun x => (sqrtC x)^-1) Lambda))
  else NonFinite.

(** The matrix [_A] handed to the second [eigh] ("Force Symmetrization"). *)
Definition whitened (n : nat) (A sqrt_B : 'M[C]_n) : 'M[C]_n :=
  2^-1 *: (sqrt_B^T *m (A *m sqrt_B) + sqrt_B^T *m (A^T *m sqrt_B)).

(** [RealLinalgDecomposition(values, vectors)] is the pair. *)
Definition generalized_eigh (n : nat) (A B : 'M[C]_n)
    : outcome ('rV[C]_n * 'M[C]_n) :=
  let! '(Lambda, Q) := jnp_eigh B in
  let! rsqrt_Lambda := rsqrt_diag Lambda in
  let sqrt_B := Q *m rsqrt_Lambda in
  let _A := whitened A sqrt_B in
  let! '(values, _tmp_vecs) := jnp_eigh _A in
  let vectors := Q *m (rsqrt_Lambda *m _tmp_vecs) in
  Ok (values, vectors).

(** ** [batch_spd_norm] *)

(** [jax.vmap(spd_norm, in_axes=(1, None), out_axes=0)]: one norm per
    column of [vecs]. *)
Definition batch_spd_norm (n r : nat) (vecs : 'M[C]_(n, r))
    (spd_matrix : 'M[C]_n) : 'I_r -> outcome C :=
  fun j => spd_norm (col j vecs) spd_matrix.

(** A call that returned a value. *)
Definition is_Ok (T : Type) (o : outcome T) : bool :=
  if o is Ok _ then true else false.

(** ** Lemmas on the primitives *)

Lemma bind_Ok (A B : Type) (x : A) (f : A -> outcome B) : bind (Ok x) f = f x.
Proof. by []. Qed.

Lemma multi_dot3E (m n p q : nat)
    (A : 'M[C]_(m, n)) (B : 'M[C]_(n, p)) (D : 'M[C]_(p, q)) :
  multi_dot3 A B D = A *m B *m D.
Proof. by rewrite /multi_dot3; case: ifP => // _; rewrite mulmxA. Qed.

Lemma flat_index_diag (n : nat) (i j : 'I_n) :
  (flat_index i j %% n.+1 == 0)%N = (i == j).
Proof.
rewrite /flat_index -val_eqE /=.
have lt_in : (i < n)%N by [].
case: (leqP i j) => [le_ij | lt_ji].
  have -> : (i * n + j = i * n.+1 + (j - i))%N.
    by rewrite mulnS addnAC subnKC // addnC.
  have lt_d : (j - i < n.+1)%N.
    by rewrite ltnS (leq_trans (leq_subr _ _)) // ltnW.
  by rewrite modnMDl modn_small // subn_eq0 eqn_leq le_ij.
have -> : (i * n + j = i.-1 * n.+1 + (n.+1 - (i - j)))%N.
  move/ltP: lt_ji => lt_ji; move/ltP: lt_in => lt_in.
  rewrite -plusE -!minusE -!multE; nia.
have lt_d : (n.+1 - (i - j) < n.+1)%N.
  by rewrite ltn_subrL subn_gt0 lt_ji.
have le_d : (i - j <= n)%N by rewrite (leq_trans (leq_subr _ _)) // ltnW.
by rewrite modnMDl modn_small // subn_eq0 leqNgt ltnS le_d gtn_eqF.
Qed.

Lemma flat_index_diag_div (n : nat) (i : 'I_n) : (flat_index i i %/ n.+1)%N = i.
Proof. by rewrite /flat_index addnC -mulnS mulnK. Qed.

Lemma nth_np_diagonal (n : nat) (a : 'M[C]_n) (i : 'I_n) :
  nth 0 (np_diagonal a) i = a i i.
Proof.
rewrite /np_diagonal (nth_map i) ?size_enum_ord //.
by rewrite nth_ord_enum.
Qed.

Lemma size_np_diagonal (n : nat) (a : 'M[C]_n) : size (np_diagonal a) = n.
Proof. by rewrite size_map size_enum_ord. Qed.

Lemma np_fill_diagonalE (n : nat) (a : 'M[C]_n) (val : seq C) :
  size val = n ->
  np_fill_diagonal a val = \matrix_(i, j) if i == j then nth 0 val i else a i j.
Proof.
move=> sz; apply/matrixP => i j; rewrite !mxE /= flat_index_diag.
case: eqP => // <-.
by rewrite flat_index_diag_div sz modn_small.
Qed.

Lemma mx_pow1 (r : nat) (A : 'M[C]_r) : mx_pow A 1 = A.
Proof. by rewrite /= mulmx1. Qed.

Lemma mx_powD (r : nat) (A : 'M[C]_r) (j k : nat) :
  mx_pow A (j + k) = mx_pow A j *m mx_pow A k.
Proof.
elim: j => [|j IH]; first by rewrite add0n mul1mx.
by rewrite addSn /= IH mulmxA.
Qed.

Lemma mx_pow_sqr (r : nat) (A : 'M[C]_r) (k : nat) :
  mx_pow (A *m A) k = mx_pow A k.*2.
Proof.
elim: k => [//|k IH].
by rewrite doubleS /= IH !mulmxA.
Qed.

(** The loop computes [result * z'^n], where [z'] is the square it is about
    to take and an absent [result] stands for the identity. *)
Lemma matrix_power_loopE (r : nat) (a : 'M[C]_r) (fuel n : nat)
    (z result : option 'M[C]_r) :
  (0 < n <= fuel)%N ->
  matrix_power_loop fuel n a z result =
    Some ((if result is Some r0 then r0 else 1%:M)
          *m mx_pow (if z is Some z0 then z0 *m z0 else a) n).
Proof.
elim: fuel n z result => [|fuel IH] n z result.
  by case: n.
case/andP=> n_pos le_n; rewrite /= n_pos.
set z' := (if z is Some z0 then z0 *m z0 else a).
set R := (if result is Some r0 then r0 else 1%:M).
have En : n = (odd n + (n %/ 2).*2)%N by rewrite divn2 odd_double_half.
have [h0|hpos] := posnP (n %/ 2)%N.
  have n1 : n = 1%N.
    by move: En n_pos; rewrite h0 addn0 => ->; case: (odd n).
  rewrite n1 /= mulmx1; subst R; case: fuel {IH le_n} => [|fuel] /=.
    by case: result => //; rewrite mul1mx.
  by case: result => //; rewrite mul1mx.
have le_half : (0 < n %/ 2 <= fuel)%N.
  by rewrite hpos /= -ltnS (leq_trans _ le_n) // ltn_Pdiv.
rewrite (IH _ _ _ le_half) mx_pow_sqr {3}En; congr Some.
case: (odd n); last by rewrite add0n.
rewrite add1n /= mulmxA; congr (_ *m _).
by subst R; case: result => //; rewrite mul1mx.
Qed.

Lemma matrix_power_nat (r : nat) (a : 'M[C]_r) (k : nat) :
  (0 < k)%N ->
  (if k == 1%N then Ok a
   else if k == 2%N then Ok (a *m a)
   else if k == 3%N then Ok ((a *m a) *m a)
   else if matrix_power_loop k k a None None is Some res then Ok res
   else Raise TypeError) = Ok (mx_pow a k).
Proof.
case: k => [//|[|[|[|k]]]] _; rewrite /mx_pow ?mulmx1 ?mulmxA //.
have k_ok : (0 < k.+4 <= k.+4)%N by rewrite leqnn.
by rewrite [_ == _]/= (matrix_power_loopE _ _ _ k_ok) mul1mx /= !mulmxA.
Qed.

Lemma matrix_power_pos (r : nat) (a : 'M[C]_r) (k : nat) :
  matrix_power a (Posz k) = Ok (mx_pow a k).
Proof.
rewrite /matrix_power; case: k => [//|k].
exact: (@matrix_power_nat r a k.+1 isT).
Qed.

Lemma matrix_power_neg (r : nat) (a : 'M[C]_r) (k : nat) :
  matrix_power a (Negz k) =
    if a \in unitmx then Ok (mx_pow (invmx a) k.+1) else Raise LinAlgError.
Proof.
rewrite /matrix_power /np_inv [Negz k == 0]/= [Negz k < 0]/=.
case: ifP => // _.
exact: (@matrix_power_nat r (invmx a) k.+1 isT).
Qed.

Lemma py_rsqrt_pos (n : nat) :
  (0 < n)%N -> py_rsqrt n = Ok (sqrtC (n%:R : C))^-1.
Proof. by rewrite /py_rsqrt; case: n. Qed.

Lemma py_recip_pos (n : nat) : (0 < n)%N -> py_recip n = Ok ((n%:R : C)^-1).
Proof. by rewrite /py_recip; case: n. Qed.

Lemma rsqrt_sq (x : C) : (sqrtC x)^-1 * (sqrtC x)^-1 = x^-1.
Proof. by rewrite -invfM -expr2 sqrtCK. Qed.

(** [predict] up to the call of [matrix_power], for a non-empty [U]. *)
Lemma predictE (m n r d : nat) (num_steps : int)
    (U V : 'M[C]_(n, r)) (K_YX : 'M[C]_n) (K_Xin_X : 'M[C]_(m, n))
    (obs : 'M[C]_(n, d)) :
  (0 < n)%N ->
  predict num_steps U V K_YX K_Xin_X obs =
    let! M := matrix_power (n%:R^-1 *: (V^T *m K_YX *m U)) (num_steps - 1) in
    Ok ((sqrtC (n%:R : C))^-1 *: (K_Xin_X *m U) *m M
        *m ((sqrtC (n%:R : C))^-1 *: (V^T *m obs))).
Proof.
move=> n_pos; rewrite /predict py_rsqrt_pos // py_recip_pos // !bind_Ok.
rewrite !multi_dot3E; case: (matrix_power _ _) => //= M.
by rewrite multi_dot3E -!scalemxAl.
Qed.

Lemma jnp_vdotE (n : nat) (a b : 'cV[C]_n) :
  jnp_vdot a b = (conj_tr a *m b) 0 0.
Proof. by rewrite /jnp_vdot mxE; apply: eq_bigr => i _; rewrite !mxE. Qed.

Lemma half_half : 2^-1 + 2^-1 = 1 :> C.
Proof. by rewrite -mulr2n -mulr_natr mulVf // pnatr_eq0. Qed.

Lemma symmetrize_tr (n : nat) (M : 'M[C]_n) :
  (symmetrize M)^T = symmetrize M.
Proof. by rewrite /symmetrize linearZ /= linearD /= trmxK addrC. Qed.

Lemma symmetrize_apply (n : nat) (M : 'M[C]_n) (v : 'cV[C]_n) :
  symmetrize M *m v + (symmetrize M)^T *m v = M *m v + M^T *m v.
Proof.
rewrite symmetrize_tr /symmetrize -mulmxDl -scalerDl half_half scale1r.
by rewrite mulmxDl.
Qed.

Lemma np_where0_recip (p : C -> bool) (s : seq C) :
  (forall x, p x = (x == 0)) ->
  np_where0 [seq p x | x <- s] [seq np_reciprocal x | x <- s] =
    [seq Some (if x == 0 then 0 else x^-1) | x <- s].
Proof.
move=> pE; rewrite /np_where0; elim: s => [//|x s IH] /=.
by rewrite IH pE /np_reciprocal; case: (x == 0).
Qed.

Lemma finite_Some (s : seq C) : finite [seq Some x | x <- s] = Ok s.
Proof.
have all_s : all isSome [seq Some x | x <- s] by rewrite all_map; apply/allP.
by rewrite /finite all_s; congr Ok; apply: map_pK.
Qed.

Lemma finite_r_normr (norm_r : seq C) :
  finite (r_normr_of norm_r) = Ok [seq if x == 0 then 0 else x^-1 | x <- norm_r].
Proof.
rewrite /r_normr_of np_where0_recip //.
by rewrite (map_comp Some) finite_Some.
Qed.

Lemma finite_r_norm_l (norm_l : seq C) :
  finite (r_norm_l_of norm_l) = Ok [seq if x == 0 then 0 else x^-1 | x <- norm_l].
Proof.
rewrite /r_norm_l_of np_where0_recip; first by move=> x; rewrite normr_eq0.
by rewrite (map_comp Some) finite_Some.
Qed.

Lemma np_mul_cols_same (r : nat) (vecs : seq 'cV[C]_r) (w : seq C) :
  size vecs = size w ->
  np_mul_cols vecs w = Ok [seq vw.2 *: vw.1 | vw <- zip vecs w].
Proof. by move=> sz; rewrite /np_mul_cols sz eqxx. Qed.

Lemma nth_scaled_cols (r : nat) (vecs : seq 'cV[C]_r) (w : seq C) (j : nat) :
  size vecs = size w -> (j < size vecs)%N ->
  nth 0 [seq vw.2 *: vw.1 | vw <- zip vecs w] j = w`_j *: nth 0 vecs j.
Proof.
move=> sz lt_j; rewrite (nth_map (0, 0)) ?size_zip -?sz ?minnn //.
by rewrite nth_zip.
Qed.

Lemma normalize_rightE (r : nat) (vr : seq 'cV[C]_r) (norm_r : seq C) :
  size norm_r = size vr ->
  normalize_right vr norm_r =
    Ok [seq vw.2 *: vw.1
       | vw <- zip vr [seq if x == 0 then 0 else x^-1 | x <- norm_r]].
Proof.
move=> sz; rewrite /normalize_right finite_r_normr bind_Ok.
by rewrite np_mul_cols_same // size_map.
Qed.

Lemma rescale_leftE (r : nat) (vl : seq 'cV[C]_r) (W : 'M[C]_r)
    (vr : seq 'cV[C]_r) :
  size vl = size vr ->
  rescale_left vl W vr =
    Ok [seq vw.2 *: vw.1
       | vw <- zip vl [seq if x == 0 then 0 else x^-1
                      | x <- diag_pairing vl W vr]].
Proof.
move=> sz; rewrite /rescale_left finite_r_norm_l bind_Ok.
by rewrite np_mul_cols_same // !size_map size_zip sz minnn.
Qed.

Lemma py_min_nat (a r : nat) : py_min a r = minn a r.
Proof.
rewrite /py_min ltz_nat /minn; case: (ltngtP a r) => // ->.
by [].
Qed.

Lemma take_minn_size (T : Type) (r : nat) (s : seq T) :
  take (minn (size s) r) s = take r s.
Proof.
case: (leqP (size s) r) => [le_sr | //].
by rewrite !take_oversize.
Qed.


(** The two branches of the filtering amount to one cut, at the position of
    the first invalid eigenvalue or at [rank], whichever comes first. *)
Lemma filter_first_invalidE (T : Type) (r : nat) (sigma_sq : seq C)
    (vecs : seq T) :
  size vecs = size sigma_sq ->
  filter_first_invalid r sigma_sq vecs =
    (take (minn (find is_invalid sigma_sq) r) sigma_sq,
     take (minn (find is_invalid sigma_sq) r) vecs).
Proof.
move=> sz; rewrite /filter_first_invalid /np_argmax !has_map find_map.
have -> : has (preim is_invalid id) sigma_sq = has is_invalid sigma_sq by [].
have -> : find (preim is_invalid id) sigma_sq = find is_invalid sigma_sq by [].
have [has_inv | /hasNfind ->] := boolP (has is_invalid sigma_sq).
  by rewrite py_min_nat.
by rewrite take_minn_size -sz take_minn_size.
Qed.

Lemma bind_Raise (A B : Type) (e : exn) (f : A -> outcome B) :
  bind (Raise e) f = Raise e.
Proof. by []. Qed.

Lemma np_real_cols_id (n : nat) (vecs : seq 'cV[C]_n) :
  all (@imag_is_zero n) vecs -> np_real_cols vecs = vecs.
Proof.
move=> /allP re_vecs; rewrite /np_real_cols -[RHS]map_id.
apply/eq_in_map => v /re_vecs /forallP im0.
apply/matrixP => i j; rewrite mxE ord1.
by apply/Creal_ReP/Creal_ImP/eqP.
Qed.

Lemma pad_to_rankE (n : nat) (vectors : seq 'cV[C]_n) (r : int) :
  pad_to_rank vectors (Some r) =
    Ok (if (size vectors : int) < r
        then vectors ++ nseq `|r - size vectors| 0 else vectors).
Proof.
rewrite /pad_to_rank /py_int bind_Ok; case: ifP => // lt_r.
rewrite size_cat size_nseq PoszD gtz0_abs ?subr_gt0 //.
by rewrite addrC subrK eqxx.
Qed.

Lemma rescale_colsE (n dim : nat) (v : seq 'cV[C]_n) (w : seq C) :
  size v = size w ->
  rescale_cols dim v w =
    Ok [seq vw.2 *: vw.1 | vw <- zip [seq sqrtC (dim%:R : C) *: x | x <- v] w].
Proof. by move=> sz; rewrite /rescale_cols np_mul_cols_same // size_map. Qed.

Lemma fit_pcr_pair (n : nat) (K_X : 'M[C]_n) (reg : C) (rank : option int)
    (tag : string) (U V : seq 'cV[C]_n) :
  fit_principal_component_regression K_X reg rank tag = Ok (U, V) -> U = V.
Proof.
rewrite /fit_principal_component_regression; case: ifP => // _.
case: (pcr_solve _ _ _) => //= -[values vectors].
case: (_rank_reveal _ _ _) => //= -[[v sv] w].
by case: (rescale_cols _ _ _) => //= W [<- <-].
Qed.

Lemma fit_rand_pcr_pair (n : nat) (K_X : 'M[C]_n) (reg : C)
    (rank n_oversamples iterated_power : int) (seed : option int)
    (flag : bool) (U V : seq 'cV[C]_n) (sv : option (seq C)) :
  fit_rand_principal_component_regression K_X reg rank n_oversamples
    iterated_power seed flag = Ok (U, V, sv) -> U = V.
Proof.
rewrite /fit_rand_principal_component_regression.
case: (randomized_svd _ _ _ _ _) => //= -[vectors values].
case: (_rank_reveal _ _ _) => //= -[[v s'] w].
by case: (rescale_cols _ _ _) => //= W [<- <- _].
Qed.

Lemma isSome_np_rsqrt (c : bool) (x : C) :
  isSome (np_rsqrt c x) = (x != 0) && (c || (0 <= x)).
Proof. by rewrite /np_rsqrt; case: (x == 0) => //=; case: (c || _). Qed.





Lemma is_invalid_nat (k : nat) : is_invalid (k%:R : C) = false.
Proof.
rewrite /is_invalid (Creal_ReP _ (realn _ k)) ltrn0 /=.
by rewrite (Creal_ImP _ (realn _ k)) eqxx.
Qed.


(** ** Theorems *)

(** C10: [regularize(M, reg, inplace=True)] returns [None], and leaves in
    [M] the matrix whose diagonal entries are those of [M] plus [reg] times
    the dimension and whose other entries are those of [M]. *)
Theorem regularize_inplace (n : nat) (M : 'M[C]_n) (reg : C) :
  regularize M reg true =
    (PyNone, \matrix_(i, j) if i == j then M i j + reg * n%:R else M i j).
Proof.
have sz : size [seq d + reg * n%:R | d <- np_diagonal M] = n.
  by rewrite size_map size_np_diagonal.
rewrite /regularize (np_fill_diagonalE _ sz).
congr pair; apply/matrixP => i j; rewrite !mxE.
case: eqP => // <-.
by rewrite (nth_map 0) ?size_np_diagonal // nth_np_diagonal.
Qed.

(** C5: for [num_steps >= 1] (and a non-empty [U], whose number of rows is
    [n]) [predict] returns
    [(n^(-1/2) K_Xin_X U) T^(num_steps-1) (n^(-1/2) V^T obs)] with
    [T = n^-1 V^T K_YX U]; for [num_steps = 1] the middle factor is the
    identity and the result is [n^-1 K_Xin_X U V^T obs], the empirical
    operator applied once. *)
Theorem predict_steps (m n r d : nat) (num_steps : int)
    (U V : 'M[C]_(n, r)) (K_YX : 'M[C]_n) (K_Xin_X : 'M[C]_(m, n))
    (obs : 'M[C]_(n, d)) :
  (0 < n)%N -> 1 <= num_steps ->
  let rs := (sqrtC (n%:R : C))^-1 in
  let T := n%:R^-1 *: (V^T *m K_YX *m U) in
  [/\ predict num_steps U V K_YX K_Xin_X obs =
        Ok (rs *: (K_Xin_X *m U) *m mx_pow T `|num_steps - 1|
            *m (rs *: (V^T *m obs))),
      mx_pow T `|1 - 1 : int| = 1%:M
    & predict 1 U V K_YX K_Xin_X obs =
        Ok (n%:R^-1 *: (K_Xin_X *m U *m V^T *m obs))].
Proof.
move=> n_pos ge1 rs T; split=> //.
  rewrite predictE //.
  have /gez0_abs <- : 0 <= num_steps - 1 by rewrite subr_ge0.
  by rewrite matrix_power_pos bind_Ok absz_nat.
rewrite predictE // subrr (matrix_power_pos _ 0) bind_Ok /= mulmx1.
by rewrite -scalemxAl -scalemxAr scalerA rsqrt_sq !mulmxA.
Qed.

(** C3, as the code has it: [predict] checks nothing about [num_steps].
    For [num_steps < 1] the exponent [num_steps - 1] is negative and
    [matrix_power] inverts [T = n^-1 V^T K_YX U]: the call raises
    [LinAlgError] when [T] is singular and otherwise returns
    [(n^(-1/2) K_Xin_X U) (T^-1)^(1-num_steps) (n^(-1/2) V^T obs)]. *)
Theorem predict_nonpositive_steps (m n r d : nat) (num_steps : int)
    (U V : 'M[C]_(n, r)) (K_YX : 'M[C]_n) (K_Xin_X : 'M[C]_(m, n))
    (obs : 'M[C]_(n, d)) :
  (0 < n)%N -> num_steps < 1 ->
  let rs := (sqrtC (n%:R : C))^-1 in
  let T := n%:R^-1 *: (V^T *m K_YX *m U) in
  predict num_steps U V K_YX K_Xin_X obs =
    if T \in unitmx then
      Ok (rs *: (K_Xin_X *m U) *m mx_pow (invmx T) `|num_steps - 1|
          *m (rs *: (V^T *m obs)))
    else Raise LinAlgError.
Proof.
move=> n_pos lt1 rs T; rewrite predictE //.
case E: (num_steps - 1) => [k|k].
  by move: lt1; rewrite -subr_lt0 E.
by rewrite matrix_power_neg -/T; case: ifP.
Qed.

(** C9: [spd_norm(v, M)] is the weighted norm of [v] under the
    symmetrization [(M + M^T)/2], the square root of the real part of
    [v^H ((M + M^T)/2) v], for every complex [v] and every [M] (a real [M]
    in particular); [M] and its symmetrization, which is symmetric, give
    the same result. *)
Theorem spd_norm_symmetrized (n : nat) (v : 'cV[C]_n) (M : 'M[C]_n) :
  [/\ spd_norm v M = weighted_norm_spec v (symmetrize M),
      spd_norm v M = spd_norm v (symmetrize M)
    & (symmetrize M)^T = symmetrize M].
Proof.
split; last exact: symmetrize_tr.
  rewrite /spd_norm /weighted_norm_spec jnp_vdotE; congr jnp_sqrt.
  rewrite /symmetrize -scalemxAr -scalemxAl -mulmxA mulmxDl [in RHS]mxE.
  by rewrite ReMl // rpredV rpred_nat.
by rewrite /spd_norm symmetrize_apply.
Qed.

(** C7: in [estimator_eig] the two rescaling factors are computed without
    leaving the field, whatever the norms are.  A right eigenvector whose
    norm is zero is mapped to the zero vector (and so is the right
    eigenfunction returned for it), and a zero entry of
    [diag(vl^T W_YX vr)] gets the rescaling factor zero. *)
Theorem estimator_eig_zero_guards (n r : nat) (U V : 'M[C]_(n, r))
    (K_X K_YX : 'M[C]_n) (values values' : seq C)
    (vl vr vl' vr' : seq 'cV[C]_r) (norm_r : seq C) :
  let W_YX := (V^T *m (n%:R^-1 *: K_YX) *m U) in
  let W_X := (U^T *m (n%:R^-1 *: K_X) *m U) in
  let r_perm := np_argsort (fuzzy_parse_complex values) in
  let l_perm := np_argsort [seq x^* | x <- fuzzy_parse_complex values] in
  (0 < n)%N ->
  scipy_eig_lr W_YX = Ok (values, vl, vr) ->
  np_take 0 vr r_perm = Ok vr' ->
  np_take 0 vl l_perm = Ok vl' ->
  np_take 0 (fuzzy_parse_complex values) r_perm = Ok values' ->
  weighted_norm vr' W_X = Ok norm_r ->
  size norm_r = size vr' -> size vl' = size vr' ->
  exists r_normr vr'' r_norm_l vl'',
    [/\ [/\ finite (r_normr_of norm_r) = Ok r_normr,
            normalize_right vr' norm_r = Ok vr''
          & forall j, (j < size vr')%N -> norm_r`_j = 0 ->
              r_normr`_j = 0 /\ nth 0 vr'' j = 0],
        [/\ finite (r_norm_l_of (diag_pairing vl' W_YX vr'')) = Ok r_norm_l,
            rescale_left vl' W_YX vr'' = Ok vl''
          & forall j, (j < size vr')%N ->
              (diag_pairing vl' W_YX vr'')`_j = 0 ->
              r_norm_l`_j = 0 /\ nth 0 vl'' j = 0],
        estimator_eig U V K_X K_YX =
          Ok (values', matmul_cols V vl'', matmul_cols U vr'')
      & forall j, (j < size vr')%N -> norm_r`_j = 0 ->
          nth 0 (matmul_cols U vr'') j = 0].
Proof.
move=> W_YX W_X r_perm l_perm n_pos Heig Hvr Hvl Hvals Hnorm sz_n sz_l.
set r_normr := [seq if x == 0 then 0 else x^-1 | x <- norm_r].
set vr'' := [seq vw.2 *: vw.1 | vw <- zip vr' r_normr].
set norm_l := diag_pairing vl' W_YX vr''.
set r_norm_l := [seq if x == 0 then 0 else x^-1 | x <- norm_l].
set vl'' := [seq vw.2 *: vw.1 | vw <- zip vl' r_norm_l].
have sz_rn : size vr' = size r_normr by rewrite size_map.
have sz_vr'' : size vr'' = size vr' by rewrite size_map size_zip -sz_rn minnn.
have sz_nl : size norm_l = size vr'.
  by rewrite size_map size_zip sz_vr'' sz_l minnn.
have sz_rl : size vl' = size r_norm_l by rewrite size_map sz_nl.
have zero_r j : (j < size vr')%N -> norm_r`_j = 0 ->
    r_normr`_j = 0 /\ nth 0 vr'' j = 0.
  move=> lt_j nj0.
  have rj0 : r_normr`_j = 0.
    by rewrite (nth_map 0) ?sz_n // nj0 eqxx.
  by split=> //; rewrite nth_scaled_cols // rj0 scale0r.
exists r_normr, vr'', r_norm_l, vl''; split.
- split=> //; first exact: finite_r_normr.
  exact: normalize_rightE.
- split; first exact: finite_r_norm_l.
    by rewrite rescale_leftE // sz_vr''.
  move=> j lt_j nj0.
  have rj0 : r_norm_l`_j = 0.
    by rewrite (nth_map 0) ?sz_nl // -/norm_l nj0 eqxx.
  by split=> //; rewrite (nth_scaled_cols sz_rl) ?sz_l // rj0 scale0r.
- rewrite /estimator_eig py_recip_pos // bind_Ok !multi_dot3E.
  rewrite -/W_YX -/W_X Heig bind_Ok -/r_perm Hvr bind_Ok -/l_perm Hvl bind_Ok.
  rewrite Hvals bind_Ok Hnorm bind_Ok normalize_rightE // bind_Ok.
  by rewrite -/r_normr -/vr'' rescale_leftE ?sz_vr''.
move=> j lt_j nj0; rewrite /matmul_cols (nth_map 0) ?sz_vr'' //.
by have [_ ->] := zero_r j lt_j nj0; rewrite mulmx0.
Qed.


(** C2: once the solver and the sorting have returned, a retained
    eigenvector with a non-zero imaginary entry makes
    [fit_reduced_rank_regression] raise [AssertionError]; when there is
    none, taking the real part changes nothing and the call goes on to the
    normalization without raising.  The filtering code of the other fit
    functions cannot fail on its own: the assertion after the zero padding
    of the Nystroem variant always holds, and the rescaling after
    [_rank_reveal] returns whenever the widths agree. *)
Theorem rrr_imaginary_eigenvector_fatal (n : nat)
    (kernel_X kernel_Y : 'M[C]_n) (reg : C) (rank : int) (tag : string)
    (flag : bool) (sigma_sq tv sigma' : seq C) (vecs vecs' : seq 'cV[C]_n)
    (sort_perm : seq nat) :
  let c := (sqrtC (n%:R : C))^-1 in
  let A := (c *: kernel_Y) *m (c *: kernel_X) in
  let M := regularize_new kernel_X (py_max finfo_eps reg) in
  (0 < n)%N ->
  rrr_solve A M rank tag = Ok (sigma_sq, vecs) ->
  topk [seq `|x| | x <- sigma_sq] (size sigma_sq) = Ok (tv, sort_perm) ->
  np_take 0 sigma_sq sort_perm = Ok sigma' ->
  np_take 0 vecs sort_perm = Ok vecs' ->
  let vecs_filtered := (filter_first_invalid rank sigma' vecs').2 in
  [/\ ~~ all (@imag_is_zero n) vecs_filtered ->
        fit_reduced_rank_regression kernel_X kernel_Y reg rank tag flag =
          Raise AssertionError,
      all (@imag_is_zero n) vecs_filtered ->
        np_real_cols vecs_filtered = vecs_filtered /\
        fit_reduced_rank_regression kernel_X kernel_Y reg rank tag flag =
          (let! U := finite_cols [seq rrr_unit_col kernel_X reg c v
                                 | v <- vecs_filtered] in
           Ok (U, matmul_cols kernel_X U,
               if flag then Some sigma' else None)),
      forall (m : nat) (vectors : seq 'cV[C]_m) (r : int),
        pad_to_rank vectors (Some r) =
          Ok (if (size vectors : int) < r
              then vectors ++ nseq `|r - size vectors| 0 else vectors)
    & forall (m dim : nat) (v : seq 'cV[C]_m) (w : seq C),
        size v = size w ->
        rescale_cols dim v w =
          Ok [seq vw.2 *: vw.1
             | vw <- zip [seq sqrtC (dim%:R : C) *: x | x <- v] w]].
Proof.
move=> c A M n_pos Hsolve Htopk Hs Hv vf.
have fitE : fit_reduced_rank_regression kernel_X kernel_Y reg rank tag flag =
    if ~~ all (@imag_is_zero n) vf then Raise AssertionError
    else let! U := finite_cols [seq rrr_unit_col kernel_X reg c v
                               | v <- np_real_cols vf] in
         Ok (U, matmul_cols kernel_X U, if flag then Some sigma' else None).
  rewrite /fit_reduced_rank_regression py_rsqrt_pos // bind_Ok -/c -/A -/M.
  rewrite Hsolve bind_Ok /rrr_filter_normalize Htopk bind_Ok Hs bind_Ok.
  rewrite Hv bind_Ok /vf.
  case: (filter_first_invalid _ _ _) => svals vf' /=.
  by case: ifP => // _; rewrite py_rsqrt_pos.
split.
- by move=> not_real; rewrite fitE not_real.
- move=> all_real; rewrite fitE all_real /=.
  by rewrite np_real_cols_id.
- by move=> m vectors r; exact: pad_to_rankE.
by move=> m dim v w; exact: rescale_colsE.
Qed.

(** C4, on the code: [fit_reduced_rank_regression] does not reject an
    unknown solver tag, it runs the dense solver as for ["full"], whereas
    the dispatches of the three other fit functions with a solver tag raise
    [ValueError]. *)
Theorem rrr_unknown_solver_runs_full (n : nat) (kernel_X kernel_Y : 'M[C]_n)
    (reg : C) (rank : int) (flag : bool) (A M : 'M[C]_n)
    (orank : option int) :
  [/\ rrr_solve A M rank "bogus" = scipy_eig_gen A M,
      fit_reduced_rank_regression kernel_X kernel_Y reg rank "bogus" flag =
        fit_reduced_rank_regression kernel_X kernel_Y reg rank "full" flag,
      pcr_solve A rank "bogus" = Raise ValueError
    & nystroem_solve A M orank "bogus" = Raise ValueError].
Proof. by []. Qed.

(** C8: [fit_principal_component_regression] and
    [fit_rand_principal_component_regression] return, for an input on which
    the solver and [_rank_reveal] return (eigenvectors [v] and reciprocal
    roots [w] of one width), the pair [(W, W)] whose two components are the
    same matrix [W], with column [j] equal to [sqrt(dim) * w_j * v_j]; and
    whatever they return has equal first and second components. *)
Theorem pcr_returns_same_matrix (n : nat) (K_X : 'M[C]_n) (reg : C)
    (rank : option int) (tag : string) (values sv w : seq C)
    (vectors v : seq 'cV[C]_n) :
  let rank' : int := if rank is Some r then r else n in
  rank' <= n ->
  pcr_solve (regularize_new K_X reg) rank' tag = Ok (values, vectors) ->
  _rank_reveal values vectors (Some rank') = Ok (v, sv, w) ->
  size v = size w ->
  let W := [seq (sqrtC (n%:R : C) * vw.2) *: vw.1 | vw <- zip v w] in
  [/\ fit_principal_component_regression K_X reg rank tag = Ok (W, W),
      size W = size v
      /\ (forall j, (j < size v)%N ->
            nth 0 W j = (sqrtC (n%:R : C) * w`_j) *: nth 0 v j),
      forall U V,
        fit_principal_component_regression K_X reg rank tag = Ok (U, V) ->
        U = V,
      forall rk os ip seed flag U V s,
        fit_rand_principal_component_regression K_X reg rk os ip seed flag =
          Ok (U, V, s) -> U = V
    & forall rk os ip seed flag vectors1 values1 v1 sv1 w1,
        randomized_svd (regularize_new K_X reg) rk os ip seed =
          Ok (vectors1, values1) ->
        _rank_reveal values1 vectors1 (Some rk) = Ok (v1, sv1, w1) ->
        size v1 = size w1 ->
        let W1 := [seq (sqrtC (n%:R : C) * vw.2) *: vw.1 | vw <- zip v1 w1] in
        fit_rand_principal_component_regression K_X reg rk os ip seed flag =
          Ok (W1, W1, if flag then Some sv1 else None)].
Proof.
move=> rank' le_rank Hsolve Hreveal sz W.
have rescaleE (v0 : seq 'cV[C]_n) (w0 : seq C) :
    size v0 = size w0 ->
    rescale_cols n v0 w0 =
      Ok [seq (sqrtC (n%:R : C) * vw.2) *: vw.1 | vw <- zip v0 w0].
  move=> sz0; rewrite rescale_colsE //; congr Ok.
  elim: v0 w0 sz0 => [|x v0 IH] [|y w0] //= [sz0].
  by rewrite IH // scalerA mulrC.
split.
- rewrite /fit_principal_component_regression -/rank' le_rank /=.
  by rewrite Hsolve bind_Ok Hreveal bind_Ok rescaleE.
- split; first by rewrite size_map size_zip sz minnn.
  move=> j lt_j; rewrite (nth_map (0, 0)) ?size_zip -?sz ?minnn //.
  by rewrite nth_zip.
- by move=> U V; exact: fit_pcr_pair.
- by move=> rk os ip seed flag U V s; exact: fit_rand_pcr_pair.
move=> rk os ip seed flag vectors1 values1 v1 sv1 w1 Hsvd Hrev sz1 W1.
rewrite /fit_rand_principal_component_regression Hsvd bind_Ok Hrev bind_Ok.
by rewrite rescaleE.
Qed.


(** ** Further properties of the code *)

Lemma fill_diagonal_reg (n : nat) (M : 'M[C]_n) (reg : C) :
  np_fill_diagonal M [seq d + reg * n%:R | d <- np_diagonal M] =
    \matrix_(i, j) if i == j then M i j + reg * n%:R else M i j.
Proof.
have sz : size [seq d + reg * n%:R | d <- np_diagonal M] = n.
  by rewrite size_map size_np_diagonal.
rewrite (np_fill_diagonalE _ sz); apply/matrixP => i j; rewrite !mxE.
case: eqP => // <-.
by rewrite (nth_map 0) ?size_np_diagonal // nth_np_diagonal.
Qed.

Lemma regularize_newE (n : nat) (M : 'M[C]_n) (reg : C) :
  regularize_new M reg =
    \matrix_(i, j) if i == j then M i j + reg * n%:R else M i j.
Proof.
apply/matrixP => i j; rewrite /regularize_new !mxE.
by case: eqP => _; rewrite ?mulr1 ?mulr0 ?addr0 // [n%:R * _]mulrC.
Qed.

(** X1: the two modes of [regularize] compute the same matrix: what
    [inplace=True] leaves in [M] is what [inplace=False] returns, and
    [inplace=False] leaves [M] as it was.  With [reg = 0] both give [M]. *)
Theorem regularize_modes_agree (n : nat) (M : 'M[C]_n) (reg : C) :
  [/\ (regularize M reg false).2 = M,
      (regularize M reg false).1 = PyVal (regularize M reg true).2,
      (regularize M 0 false).1 = PyVal M
    & (regularize M 0 true).2 = M].
Proof.
have id0 : regularize_new M 0 = M.
  by rewrite /regularize_new mulr0 scale0r addr0.
split=> //; rewrite /regularize /=.
- by rewrite fill_diagonal_reg regularize_newE.
- by rewrite id0.
by rewrite fill_diagonal_reg -regularize_newE.
Qed.

(** X2: [regularize] keeps a symmetric matrix symmetric, in the returned
    matrix of the default mode and in the buffer of the in-place mode. *)
Theorem regularize_symmetric (n : nat) (M : 'M[C]_n) (reg : C) :
  M^T = M ->
  (regularize_new M reg)^T = regularize_new M reg
  /\ ((regularize M reg true).2)^T = (regularize M reg true).2.
Proof.
move=> symM.
have symR : (regularize_new M reg)^T = regularize_new M reg.
  by rewrite /regularize_new linearD /= symM linearZ /= trmx1.
by split=> //; rewrite /regularize /= fill_diagonal_reg -regularize_newE.
Qed.

(** X3: [predict] is linear in the observable: when it returns [P1] for
    [obs1] and [P2] for [obs2], it returns [a P1 + P2] for
    [a obs1 + obs2], whatever [num_steps] is. *)
Theorem predict_linear (m n r d : nat) (num_steps : int)
    (U V : 'M[C]_(n, r)) (K_YX : 'M[C]_n) (K_Xin_X : 'M[C]_(m, n))
    (obs1 obs2 : 'M[C]_(n, d)) (a : C) (P1 P2 : 'M[C]_(m, d)) :
  predict num_steps U V K_YX K_Xin_X obs1 = Ok P1 ->
  predict num_steps U V K_YX K_Xin_X obs2 = Ok P2 ->
  predict num_steps U V K_YX K_Xin_X (a *: obs1 + obs2) = Ok (a *: P1 + P2).
Proof.
case: n U V K_YX K_Xin_X obs1 obs2 => [//|n] U V K_YX K_Xin_X obs1 obs2.
rewrite !predictE //; case: (matrix_power _ _) => //= T [<-] [<-].
congr Ok; rewrite mulmxDr scalerDr mulmxDr; congr (_ + _).
by rewrite -!scalemxAr !scalerA mulrC.
Qed.

(** X4: for an empty sample set ([shape[0] = 0]) every function that
    scales by a negative power of the sample count raises
    [ZeroDivisionError], before any library call. *)
Theorem empty_sample_set_raises (m r d : nat) (num_steps : int)
    (U V : 'M[C]_(0, r)) (K : 'M[C]_0) (K_in : 'M[C]_(m, 0))
    (obs : 'M[C]_(0, d)) (reg : C) (rank os ip : int) (tag : string)
    (opt flag : bool) (seed : option int) (N : nat) (rv : 'M[C]_(N, r)) (K_N : 'M[C]_(m, N)) :
  [/\ predict num_steps U V K K_in obs = Raise ZeroDivisionError,
      estimator_eig U V K K = Raise ZeroDivisionError
      /\ svdvals U V K K = Raise ZeroDivisionError,
      fit_reduced_rank_regression K K reg rank tag flag =
        Raise ZeroDivisionError,
      fit_rand_reduced_rank_regression K K reg rank os opt ip seed flag =
        Raise ZeroDivisionError
    & evaluate_eigenfunction K_in U = Raise ZeroDivisionError
      /\ estimator_modes K_N rv U = Raise ZeroDivisionError].
Proof. by []. Qed.

(** X5: [fit_principal_component_regression] checks the rank before it
    looks at the solver tag: a rank above the matrix dimension raises
    [AssertionError] for every tag, known or not. *)
Theorem pcr_rank_too_high (n : nat) (K_X : 'M[C]_n) (reg : C) (rank : int)
    (tag : string) :
  (n : int) < rank ->
  fit_principal_component_regression K_X reg (Some rank) tag =
    Raise AssertionError.
Proof.
move=> lt_rank; rewrite /fit_principal_component_regression.
by rewrite Order.TotalTheory.leNgt lt_rank.
Qed.

Lemma size_filter_first_invalid (T : Type) (r : nat) (sigma_sq : seq C)
    (vecs : seq T) :
  (size (filter_first_invalid r sigma_sq vecs).2 <= r)%N.
Proof.
rewrite /filter_first_invalid; case: ifP => _ /=; last first.
  by rewrite size_take_min geq_minl.
rewrite py_min_nat /= size_take_min.
by apply: leq_trans (geq_minl _ _) (geq_minr _ _).
Qed.

Lemma size_finite_cols (n : nat) (vecs : seq (option 'cV[C]_n))
    (U : seq 'cV[C]_n) :
  finite_cols vecs = Ok U -> size U = size vecs.
Proof.
rewrite /finite_cols; case: ifP => // all_some [<-].
by rewrite size_pmap; apply/eqP; rewrite -all_count.
Qed.

(** X6: with the default [rank=None] the Nystroem reduced rank regression
    never returns a result, whatever the solver tag and the library calls
    do ([TypeError] at [rank + 3] or at [vectors.shape[1] < rank] when
    nothing fails earlier).  The Nystroem
    principal component regression raises [TypeError] for [rank=None] with
    the ["arnoldi"] solver. *)
Theorem nystroem_default_rank_fails (N m : nat) (kX kY : 'M[C]_m)
    (kXn kYn : 'M[C]_(N, m)) (reg : C) (tag : string) (flag : bool) :
  is_Ok (fit_nystroem_reduced_rank_regression kX kY kXn kYn reg None tag
           flag) = false
  /\ fit_nystroem_principal_component_regression kX kY kXn kYn reg None
       "arnoldi" = Raise TypeError.
Proof.
split=> //; rewrite /fit_nystroem_reduced_rank_regression.
case: (scipy_lstsq _ _) => //= tmp; rewrite /nystroem_solve.
case: (tag =? "full")%string; last by case: (tag =? "arnoldi")%string.
case: (scipy_eigh_gen _ _) => //= -[values vectors].
rewrite /nystroem_rrr_filter; case: (modified_QR _ _) => //= -[q perm].
by case: (np_take _ _ _).
Qed.

(** X7: when the Nystroem reduced rank regression returns for a rank [r],
    the pivoted factorization [modified_QR] has returned the columns [q]
    and the permutation [perm]; with [v = q[:, argsort(perm)]], of width
    [k], [U] and [V] have [max(k, r)] columns each: column [j < k] of [U] is
    [Re (lstsq(kernel_Xnys_sq, kernel_XYX) v_j)] and that of [V] is
    [Re (_tmp_YX v_j)], and every column from [k] on is zero in both. *)
Theorem nystroem_rrr_width (N m : nat) (kX kY : 'M[C]_m)
    (kXn kYn : 'M[C]_(N, m)) (reg : C) (r : int) (tag : string)
    (flag : bool) (U V : seq 'cV[C]_m) (s : option (seq C)) :
  fit_nystroem_reduced_rank_regression kX kY kXn kYn reg (Some r) tag flag =
    Ok (U, V, s) ->
  let YX := kYn^T *m kXn in
  let eps := m%:R * finfo_eps in
  let sq := kXn^T *m kXn + (py_max eps reg * m%:R) *: kX in
  exists (tmp W : 'M[C]_m) (values : seq C) (vectors q v : seq 'cV[C]_m)
         (perm : seq nat),
    let XYX := 2^-1 *: (YX^T *m tmp + (YX^T *m tmp)^T) in
    [/\ [/\ scipy_lstsq kY YX = Ok tmp,
            nystroem_solve XYX (regularize_new sq eps) (Some r) tag =
              Ok (values, vectors),
            modified_QR vectors XYX = Ok (q, perm),
            np_take 0 q (np_argsort_int perm) = Ok v
          & scipy_lstsq sq XYX = Ok W],
        [/\ size U = size V, r <= size U
          & size U = if (size v : int) < r then `|r|%N else size v],
        forall j, (j < size v)%N ->
          nth 0 U j = map_mx (@Re C) (W *m nth 0 v j)
          /\ nth 0 V j = map_mx (@Re C) (tmp *m nth 0 v j)
      & forall j, (size v <= j < size U)%N -> nth 0 U j = 0 /\ nth 0 V j = 0].
Proof.
move=> Hfit YX eps sq; move: Hfit.
rewrite /fit_nystroem_reduced_rank_regression -/YX -/eps -/sq.
case Etmp: (scipy_lstsq kY YX) => [tmp| |] //=.
set XYX := 2^-1 *: (YX^T *m tmp + (YX^T *m tmp)^T).
case Esolve: (nystroem_solve _ _ _ _) => [[values vectors]| |] //=.
rewrite /nystroem_rrr_filter.
case Eqr: (modified_QR _ _) => [[q perm]| |] //=.
case Etake: (np_take _ _ _) => [v| |] //=; rewrite pad_to_rankE bind_Ok.
set vs := (if _ then _ else _); case EW: (scipy_lstsq _ _) => [W| |] //=.
move=> [<- <- _]; exists tmp, W, values, vectors, q, v, perm.
have sz_vs : size vs = if (size v : int) < r then `|r|%N else size v.
  rewrite /vs; case: ifP => // lt_r.
  have r_pos : 0 < r by apply: Order.POrderTheory.le_lt_trans lt_r.
  rewrite size_cat size_nseq; apply/eqP; rewrite -eqz_nat PoszD.
  by rewrite (gtz0_abs r_pos) gtz0_abs ?subr_gt0 // addrC subrK.
have szU : size (np_real_cols (matmul_cols W vs)) = size vs.
  by rewrite !size_map.
have szV : size (np_real_cols (matmul_cols tmp vs)) = size vs.
  by rewrite !size_map.
have re0 : map_mx (@Re C) (0 : 'cV[C]_m) = 0.
  by apply/matrixP => i j; rewrite !mxE raddf0.
have le_vs : (size v <= size vs)%N.
  by rewrite /vs; case: ifP => // _; rewrite size_cat leq_addr.
have nth_vs j : (j < size vs)%N ->
    nth 0 vs j = if (j < size v)%N then nth 0 v j else 0.
  rewrite /vs; case: ifP => _ => [_ | ->] //.
  by rewrite nth_cat nth_nseq; case: ifP => //; case: ifP.
split.
- by split.
- rewrite szU szV sz_vs; split=> //.
  case: ifP => [lt_r | /negbT]; last by rewrite -Order.TotalTheory.leNgt.
  have r_pos : 0 < r by apply: Order.POrderTheory.le_lt_trans lt_r.
  by rewrite (gtz0_abs r_pos).
- move=> j lt_j.
  have lt_vs : (j < size vs)%N := leq_trans lt_j le_vs.
  rewrite /np_real_cols /matmul_cols !(nth_map 0) ?size_map //.
  by rewrite nth_vs // lt_j.
move=> j; rewrite szU => /andP[le_j lt_vs].
rewrite /np_real_cols /matmul_cols !(nth_map 0) ?size_map //.
by rewrite nth_vs // ltnNge le_j /= !mulmx0 re0.
Qed.

(** X8: when [fit_reduced_rank_regression] returns for a rank [>= 0], [U]
    has at most [rank] columns and [V] is [kernel_X @ U]; the singular
    values handed back with [_return_singular_values] are the whole sorted
    spectrum of the solver (as many as [topk] gave indices), not the
    retained ones. *)
Theorem rrr_result_shape (n : nat) (kX kY : 'M[C]_n) (reg : C) (rank : int)
    (tag : string) (flag : bool) (U V : seq 'cV[C]_n)
    (s : option (seq C)) :
  0 <= rank ->
  fit_reduced_rank_regression kX kY reg rank tag flag = Ok (U, V, s) ->
  let c := (sqrtC (n%:R : C))^-1 in
  [/\ (size U <= `|rank|)%N, V = matmul_cols kX U
    & exists sigma_sq vecs tv sort_perm,
        [/\ rrr_solve ((c *: kY) *m (c *: kX))
              (regularize_new kX (py_max finfo_eps reg)) rank tag =
              Ok (sigma_sq, vecs),
            topk [seq `|x| | x <- sigma_sq] (size sigma_sq) =
              Ok (tv, sort_perm)
          & s = if flag then Some [seq nth 0 sigma_sq i | i <- sort_perm]
                else None]].
Proof.
case: rank => [r|//] _; case: n kX kY U V => [//|n] kX kY U V.
rewrite /fit_reduced_rank_regression py_rsqrt_pos // bind_Ok.
case Esolve: (rrr_solve _ _ _ _) => [[sigma_sq vecs]| |] //=.
rewrite /rrr_filter_normalize.
case Etopk: (topk _ _) => [[tv sort_perm]| |] //=.
rewrite {1}/np_take; case: ifP => // ok_s /=.
rewrite {1}/np_take; case: ifP => // ok_v /=.
have := size_filter_first_invalid r [seq nth 0 sigma_sq i | i <- sort_perm]
          [seq nth 0 vecs i | i <- sort_perm].
case: (filter_first_invalid _ _ _) => svals vf /= le_vf.
case: ifP => // _; rewrite ?py_rsqrt_pos ?bind_Ok //=.
case Efin: (finite_cols _) => [U'| |] //= [<- <- <-].
split=> //.
  by rewrite (size_finite_cols Efin) !size_map.
by exists sigma_sq, vecs, tv, sort_perm.
Qed.

Lemma clip_negative_ge0 (x : C) :
  x \is Num.real -> 0 <= (if x < 0 then 0 else x).
Proof.
move=> re_x; case: ifP => // /negbT.
by rewrite -real_leNgt // real0.
Qed.

(** X9: [svdvals] never takes the square root of a negative number: for
    every list of eigenvalues the solver hands back (complex, or with
    negative real parts), it returns as many values, each a non-negative
    real whose square is the real part of the eigenvalue clipped at 0. *)
Theorem svdvals_nonnegative (n r : nat) (U V : 'M[C]_(n, r))
    (K_X K_Y : 'M[C]_n) (vals : seq C) :
  (0 < n)%N ->
  scipy_eigvals ((V^T *m (n%:R^-1 *: K_Y) *m V)
                 *m (U^T *m (n%:R^-1 *: K_X) *m U)) = Ok vals ->
  exists out,
    [/\ svdvals U V K_X K_Y = Ok out, size out = size vals
      & forall j, (j < size vals)%N ->
          0 <= out`_j
          /\ out`_j ^+ 2 = (if 'Re vals`_j < 0 then 0 else 'Re vals`_j)].
Proof.
move=> n_pos Hvals.
pose clipped := clip_negative [seq 'Re x | x <- vals].
have ge0 : {in clipped, forall y, 0 <= y}.
  move=> y /mapP[x /mapP[z _ ->] ->].
  by apply: clip_negative_ge0; exact: Creal_Re.
have sqrtE : [seq np_sqrt_real x | x <- clipped] =
    [seq Some y | y <- [seq sqrtC x | x <- clipped]].
  rewrite -map_comp; apply/eq_in_map => y /ge0 y_ge0.
  by rewrite /np_sqrt_real y_ge0.
exists [seq sqrtC x | x <- clipped]; split.
- rewrite /svdvals py_recip_pos // bind_Ok !multi_dot3E Hvals bind_Ok.
  by rewrite -/clipped sqrtE finite_Some.
- by rewrite !size_map.
move=> j lt_j.
have lt_c : (j < size clipped)%N by rewrite !size_map.
rewrite (nth_map 0) // sqrtC_ge0 sqrtCK ge0 ?mem_nth //.
by rewrite /clipped /clip_negative (nth_map 0) ?size_map // (nth_map 0).
Qed.

(** X10: the slices of [estimator_modes] are outer products, slice [k]
    being column [k] of the right eigenfunctions at the initial conditions
    times row [k] of the rescaled left eigenvectors; summed with weights
    [w] they give [E diag(w) (N^(-1/2) lv^T)]. *)
Theorem estimator_modes_sum (m n N r : nat) (K_Xin_X : 'M[C]_(m, n))
    (rv : 'M[C]_(n, r)) (lv : 'M[C]_(N, r)) (w : 'rV[C]_r) :
  (0 < n)%N -> (0 < N)%N ->
  let lv_obs := (sqrtC (N%:R : C))^-1 *: lv^T in
  exists modes E,
    [/\ estimator_modes K_Xin_X rv lv = Ok modes,
        evaluate_eigenfunction K_Xin_X rv = Ok E,
        forall k, modes k = col k E *m row k lv_obs
      & \sum_k w 0 k *: modes k = E *m diag_mx w *m lv_obs].
Proof.
move=> n_pos N_pos lv_obs.
pose E := ((sqrtC (n%:R : C))^-1 *: K_Xin_X) *m rv.
have evE : evaluate_eigenfunction K_Xin_X rv = Ok E.
  by rewrite /evaluate_eigenfunction py_rsqrt_pos.
pose modes : {ffun 'I_r -> 'M[C]_(m, N)} :=
  [ffun k => \matrix_(i, j) (E^T k i * lv_obs k j)].
exists modes, E; split=> //.
- by rewrite /estimator_modes py_rsqrt_pos // bind_Ok evE.
- move=> k; apply/matrixP => i j.
  by rewrite ffunE !mxE big_ord1 !mxE.
apply/matrixP => i j; rewrite summxE [RHS]mxE; apply: eq_bigr => k _.
rewrite mxE ffunE [in LHS]mxE [E^T k i]mxE mul_mx_diag [in RHS]mxE.
by rewrite mulrA [w 0 k * _]mulrC.
Qed.

Lemma jnp_vdot_scale (n : nat) (c : C) (v w : 'cV[C]_n) :
  jnp_vdot (c *: v) (c *: w) = `|c| ^+ 2 * jnp_vdot v w.
Proof.
rewrite /jnp_vdot mulr_sumr; apply: eq_bigr => i _.
by rewrite !mxE rmorphM /= normCK mulrACA [c^* * c]mulrC.
Qed.

(** X11: [spd_norm] is absolutely homogeneous: scaling the vector by
    [c != 0] scales the norm by [|c|] (and a [nan] stays one); the same
    holds for each column under [batch_spd_norm]; the zero vector has norm
    zero. *)
Theorem spd_norm_homogeneous (n r : nat) (v : 'cV[C]_n)
    (vecs : 'M[C]_(n, r)) (M : 'M[C]_n) (c : C) :
  c != 0 ->
  [/\ spd_norm (c *: v) M = (let! x := spd_norm v M in Ok (`|c| * x)),
      forall j, batch_spd_norm (c *: vecs) M j =
                  (let! x := batch_spd_norm vecs M j in Ok (`|c| * x))
    & spd_norm (0 : 'cV[C]_n) M = Ok 0].
Proof.
move=> c_neq0.
have scale u : spd_norm (c *: u) M = (let! x := spd_norm u M in Ok (`|c| * x)).
  rewrite /spd_norm -!scalemxAr -scalerDr jnp_vdot_scale.
  set X := jnp_vdot u _.
  have re_c : `|c| ^+ 2 \is Num.real by rewrite rpredX // normr_real.
  have c2_gt0 : 0 < `|c| ^+ 2 by rewrite exprn_gt0 // normr_gt0.
  rewrite (ReMl re_c) mulrCA /jnp_sqrt pmulr_rge0 //.
  case: ifP => //= y_ge0.
  have c2_ge0 : 0 <= `|c| ^+ 2 := Order.POrderTheory.ltW c2_gt0.
  by rewrite sqrtCM ?qualifE /= ?sqrCK.
split=> //.
- by move=> j; rewrite /batch_spd_norm linearZ /= scale.
rewrite /spd_norm !mulmx0 addr0 /jnp_vdot big1 => [i _|].
  by rewrite !mxE mulr0.
by rewrite raddf0 mulr0 /jnp_sqrt Order.POrderTheory.lexx sqrtC0.
Qed.

(** X12: under the identity matrix [spd_norm] is the Euclidean norm,
    [sqrt(sum_i |v_i|^2)], and is always defined. *)
Theorem spd_norm_identity (n : nat) (v : 'cV[C]_n) :
  spd_norm v 1%:M = Ok (sqrtC (\sum_i `|v i 0| ^+ 2)).
Proof.
rewrite /spd_norm trmx1 mul1mx.
have -> : jnp_vdot v (v + v) = (\sum_i `|v i 0| ^+ 2) *+ 2.
  rewrite /jnp_vdot -sumrMnl; apply: eq_bigr => i _.
  by rewrite mxE -mulr2n mulrnAr normCK [v i 0 * _]mulrC.
have s_ge0 : 0 <= \sum_i `|v i 0| ^+ 2.
  by apply: sumr_ge0 => i _; rewrite exprn_ge0.
have re_s : (\sum_i `|v i 0| ^+ 2) *+ 2 \is Num.real.
  by rewrite rpredMn // ger0_real.
rewrite (Creal_ReP _ re_s); set S := \sum_i _ in s_ge0 *.
have -> : 2^-1 * (S *+ 2) = S.
  by rewrite -[S *+ 2]mulr_natl mulrA mulVf ?mul1r // pnatr_eq0.
by rewrite /jnp_sqrt s_ge0.
Qed.

Lemma whitened_sym (n : nat) (A S : 'M[C]_n) :
  whitened A S = S^T *m symmetrize A *m S.
Proof.
rewrite /whitened /symmetrize -scalemxAr -scalemxAl; congr (_ *: _).
by rewrite mulmxDr mulmxDl !mulmxA.
Qed.

(** X13: [generalized_eigh] sees only the symmetric part of [A]: the
    matrix it hands to the second [eigh] is symmetric and is
    [sqrt_B^T ((A + A^T)/2) sqrt_B], so [A], its transpose and its
    symmetrization give the same result. *)
Theorem generalized_eigh_symmetrizes (n : nat) (A B S : 'M[C]_n) :
  [/\ (whitened A S)^T = whitened A S,
      whitened A S = S^T *m symmetrize A *m S,
      generalized_eigh A^T B = generalized_eigh A B
    & generalized_eigh (symmetrize A) B = generalized_eigh A B].
Proof.
have symT M : symmetrize M^T = symmetrize M.
  by rewrite /symmetrize trmxK addrC.
have symS M : symmetrize (symmetrize M) = symmetrize M.
  set S0 := symmetrize M; rewrite /symmetrize -/S0 [S0^T]symmetrize_tr.
  by rewrite scalerDr -scalerDl half_half scale1r.
have whT T0 : whitened A^T T0 = whitened A T0.
  by rewrite !whitened_sym symT.
have whS T0 : whitened (symmetrize A) T0 = whitened A T0.
  by rewrite !whitened_sym symS.
split.
- by rewrite whitened_sym !trmx_mul trmxK symmetrize_tr mulmxA.
- exact: whitened_sym.
- rewrite /generalized_eigh; case: (jnp_eigh B) => //= -[Lambda Q].
  by case: (rsqrt_diag Lambda) => //= rs; rewrite whT.
rewrite /generalized_eigh; case: (jnp_eigh B) => //= -[Lambda Q].
by case: (rsqrt_diag Lambda) => //= rs; rewrite whS.
Qed.

Lemma diag_pairing_rescaled (r : nat) (W : 'M[C]_r) (vl vr : seq 'cV[C]_r) :
  size vl = size vr ->
  diag_pairing
    [seq vw.2 *: vw.1
    | vw <- zip vl [seq if x == 0 then 0 else x^-1
                   | x <- diag_pairing vl W vr]] W vr =
    [seq if x == 0 then 0 else 1 | x <- diag_pairing vl W vr].
Proof.
rewrite /diag_pairing; elim: vl vr => [|a vl IH] [|b vr] //= [sz].
rewrite IH //; congr (_ :: _); rewrite linearZ /= -!scalemxAl mxE.
by case: ifP => [_ | /negbT nz]; rewrite ?mul0r ?mulVf.
Qed.

(** X14: the rescaling of the left eigenvectors in [estimator_eig] enforces
    biorthogonality: afterwards [diag(vl^T W_YX vr)] is 1 wherever it was
    not zero, and 0 where it was. *)
Theorem rescale_left_biorthogonal (r : nat) (W_YX : 'M[C]_r)
    (vl vr : seq 'cV[C]_r) :
  size vl = size vr ->
  exists vl'',
    [/\ rescale_left vl W_YX vr = Ok vl'', size vl'' = size vl
      & diag_pairing vl'' W_YX vr =
          [seq if x == 0 then 0 else 1 | x <- diag_pairing vl W_YX vr]].
Proof.
move=> sz; eexists; split; first exact: rescale_leftE.
  by rewrite size_map size_zip !size_map size_zip sz !minnn.
exact: diag_pairing_rescaled.
Qed.

End Dual.

(** ** Instances over the algebraic numbers *)

(** C5 at [n = 1], [num_steps = 2], every matrix the 1 x 1 identity. *)
Lemma predict_steps_witness :
  let I1 := 1%:M : 'M[algC]_1 in
  let rs := (sqrtC (1%:R : algC))^-1 in
  let T := (1%:R : algC)^-1 *: (I1^T *m I1 *m I1) in
  [/\ predict 2 I1 I1 I1 I1 I1 =
        Ok (rs *: (I1 *m I1) *m mx_pow T `|2 - 1 : int| *m (rs *: (I1^T *m I1))),
      mx_pow T `|1 - 1 : int| = 1%:M
    & predict 1 I1 I1 I1 I1 I1 = Ok ((1%:R : algC)^-1 *: (I1 *m I1 *m I1^T *m I1))].
Proof.
by apply: (@predict_steps algC 1 1 1 1 2 1%:M 1%:M 1%:M 1%:M 1%:M).
Defined.

(** C3 fails on the code: with 1 x 1 matrices [U = 2], [V = K_YX = K_Xin_X =
    obs = 1], [predict(0, ...)] returns [1] (it applies [T^-1 = 1/2]). *)
Lemma predict_zero_steps_returns :
  predict (C := algC) 0 (2%:M : 'M_1) (1%:M : 'M_1) (1%:M : 'M_1)
    (1%:M : 'M_1) (1%:M : 'M_1) = Ok 1%:M.
Proof.
rewrite predictE // (_ : 0 - 1 = Negz 0) // matrix_power_neg.
rewrite sqrtC1 !invr1 !scale1r trmx1 !mul1mx.
have u2 : (2%:M : 'M[algC]_1) \in unitmx.
  by rewrite unitmxE det_scalar expr1 unitfE pnatr_eq0.
by rewrite u2 bind_Ok /= !mulmx1 mulmxV.
Qed.

(** C3 (amended) at [num_steps = 0] on the same input. *)
Lemma predict_nonpositive_steps_witness :
  let U := 2%:M : 'M[algC]_1 in
  let I1 := 1%:M : 'M[algC]_1 in
  let rs := (sqrtC (1%:R : algC))^-1 in
  let T := (1%:R : algC)^-1 *: (I1^T *m I1 *m U) in
  predict 0 U I1 I1 I1 I1 =
    if T \in unitmx then
      Ok (rs *: (I1 *m U) *m mx_pow (invmx T) `|0 - 1 : int| *m (rs *: (I1^T *m I1)))
    else Raise LinAlgError.
Proof.
by apply: (@predict_nonpositive_steps algC 1 1 1 1 0 2%:M 1%:M 1%:M 1%:M 1%:M).
Defined.


(** C2 on a 1 x 1 problem whose solver hands back an eigenvector with the
    entry [i]: the call raises [AssertionError]. *)
Lemma rrr_imaginary_eigenvector_fatal_witness :
  fit_reduced_rank_regression (C := algC) 0 Stub.eigs Stub.eig_gen_imag
    Stub.topk (1%:M : 'M_1) (1%:M : 'M_1) 0 1 "full" false =
    Raise AssertionError.
Proof.
have [H _ _ _] :=
  @rrr_imaginary_eigenvector_fatal algC 0 Stub.eigs Stub.eig_gen_imag
    Stub.topk 1 1%:M 1%:M 0 1 "full" false [:: 1] [:: `|1|] [:: 1]
    [:: const_mx 'i] [:: const_mx 'i] [:: 0%N] isT erefl erefl erefl erefl.
apply: H; rewrite filter_first_invalidE //= (is_invalid_nat _ 1) /= andbT.
by apply/forallP => /(_ 0); rewrite mxE Im_i oner_eq0.
Defined.

(** C8 on a 1 x 1 problem with the default rank and the solver ["full"],
    which hands back the eigenpair [(1, [1])]. *)
Lemma pcr_returns_same_matrix_witness :
  let u : 'cV[algC]_1 := const_mx 1 in
  let W := [:: (sqrtC (1%:R : algC) * 1) *: u] in
  fit_principal_component_regression (C := algC) Stub.eigh Stub.eigsh
    Stub.rank_reveal (1%:M : 'M_1) 0 None "full" = Ok (W, W).
Proof.
move=> u W.
have [H _ _ _ _] :=
  @pcr_returns_same_matrix algC Stub.eigh Stub.eigsh Stub.randomized_svd
    Stub.rank_reveal 1 1%:M 0 None "full" [:: 1] [:: 1] [:: 1]
    [:: const_mx 1] [:: const_mx 1] isT erefl erefl erefl.
exact: H.
Defined.

(** C7 on a 1 x 1 problem whose right eigenvector has norm zero: the call
    returns, and the right eigenfunction is the zero vector. *)
Lemma estimator_eig_zero_guards_witness :
  exists lefts rights,
    estimator_eig (C := algC) Stub.eig_lr Stub.fuzzy Stub.argsort
      Stub.zero_norm (1%:M : 'M_1) (1%:M : 'M_1) (1%:M : 'M_1) (1%:M : 'M_1) =
      Ok ([:: 1], lefts, rights)
    /\ nth 0 rights 0 = 0.
Proof.
have [r_normr [vr'' [r_norm_l [vl'' [_ _ H Hz]]]]] :=
  @estimator_eig_zero_guards algC Stub.eig_lr Stub.fuzzy Stub.argsort
    Stub.zero_norm 1 1 1%:M 1%:M 1%:M 1%:M [:: 1] [:: 1]
    [:: const_mx 1] [:: const_mx 1] [:: const_mx 1] [:: const_mx 1] [:: 0]
    isT erefl erefl erefl erefl erefl erefl erefl.
by exists (matmul_cols 1%:M vl''), (matmul_cols 1%:M vr''); split; last exact: Hz.
Defined.





(** ** Instances for the further properties *)

(** X2 on the 1 x 1 identity with [reg = 1]. *)
Lemma regularize_symmetric_witness :
  (regularize_new (1%:M : 'M[algC]_1) 1)^T = regularize_new 1%:M 1
  /\ ((regularize (1%:M : 'M[algC]_1) 1 true).2)^T =
       (regularize (1%:M : 'M[algC]_1) 1 true).2.
Proof. by apply: (@regularize_symmetric algC 1 1%:M 1); rewrite trmx1. Defined.

(** X3 at [num_steps = 1] on 1 x 1 identities, for [2 obs + obs]. *)
Lemma predict_linear_witness :
  let I1 := 1%:M : 'M[algC]_1 in
  let P := (sqrtC (1%:R : algC))^-1 *: (I1 *m I1)
           *m mx_pow ((1%:R : algC)^-1 *: (I1^T *m I1 *m I1)) 0
           *m ((sqrtC (1%:R : algC))^-1 *: (I1^T *m I1)) in
  predict 1 I1 I1 I1 I1 (2 *: I1 + I1) = Ok (2 *: P + P).
Proof.
move=> I1 P.
have HP : predict 1 I1 I1 I1 I1 I1 = Ok P.
  by rewrite predictE // subrr (matrix_power_pos _ 0).
exact: (@predict_linear algC 1 1 1 1 1 I1 I1 I1 I1 I1 I1 2 P P HP HP).
Defined.

(** X5 at rank 2 on a 1 x 1 kernel, with an unknown solver tag. *)
Lemma pcr_rank_too_high_witness :
  fit_principal_component_regression (C := algC) Stub.eigh Stub.eigsh
    Stub.rank_reveal (1%:M : 'M_1) 0 (Some 2) "bogus" = Raise AssertionError.
Proof.
exact: (@pcr_rank_too_high algC Stub.eigh Stub.eigsh Stub.rank_reveal 1 1%:M
          0 2 "bogus" isT).
Defined.

(** X10 on 1 x 1 identities with weight 1. *)
Lemma estimator_modes_sum_witness :
  let I1 := 1%:M : 'M[algC]_1 in
  let lv_obs := (sqrtC (1%:R : algC))^-1 *: I1^T in
  exists modes E,
    [/\ estimator_modes I1 I1 I1 = Ok modes,
        evaluate_eigenfunction I1 I1 = Ok E,
        forall k, modes k = col k E *m row k lv_obs
      & \sum_k (I1 0 k) *: modes k = E *m diag_mx (I1 : 'rV_1) *m lv_obs].
Proof.
exact: (@estimator_modes_sum algC 1 1 1 1 1%:M 1%:M 1%:M 1%:M isT isT).
Defined.

(** X11 for the vector [(1)] scaled by 2 under the identity. *)
Lemma spd_norm_homogeneous_witness :
  spd_norm (2 *: (const_mx 1 : 'cV[algC]_1)) 1%:M =
    (let! x := spd_norm (const_mx 1 : 'cV[algC]_1) 1%:M in Ok (`|2| * x)).
Proof.
have nz : (2 : algC) != 0 by rewrite pnatr_eq0.
by have [-> _ _] :=
  @spd_norm_homogeneous algC 1 1 (const_mx 1) 1%:M 1%:M 2 nz.
Defined.

(** X14 for the left vector [(2)] and the right vector [(1)]. *)
Lemma rescale_left_biorthogonal_witness :
  exists vl'',
    [/\ rescale_left [:: (const_mx 2 : 'cV[algC]_1)] 1%:M [:: const_mx 1] =
          Ok vl'',
        size vl'' = 1%N
      & diag_pairing vl'' 1%:M [:: (const_mx 1 : 'cV[algC]_1)] =
          [seq if x == 0 then 0 else 1
          | x <- diag_pairing [:: (const_mx 2 : 'cV[algC]_1)] 1%:M
                   [:: const_mx 1]]].
Proof.
exact: (@rescale_left_biorthogonal algC 1 1%:M [:: const_mx 2]
          [:: const_mx 1] erefl).
Defined.

(** X9 for the eigenvalues [-1, i, 4]. *)
Lemma svdvals_nonnegative_witness :
  let vals : seq algC := [:: - 1; 'i; 4%:R] in
  exists out,
    [/\ svdvals (C := algC) StubMore.eigvals (1%:M : 'M_1) (1%:M : 'M_1)
          (1%:M : 'M_1) (1%:M : 'M_1) = Ok out,
        size out = size vals
      & forall j, (j < size vals)%N ->
          0 <= out`_j
          /\ out`_j ^+ 2 = (if 'Re vals`_j < 0 then 0 else 'Re vals`_j)].
Proof.
move=> vals.
exact: (@svdvals_nonnegative algC StubMore.eigvals 1 1 1%:M 1%:M 1%:M 1%:M
          [:: - 1; 'i; 4%:R] isT erefl).
Defined.

(** X7 at rank 2 when the factorization finds the one column [(1)] and
    the least-squares solver hands back [(1)]: [U] has two columns, the
    first is [Re ((1) (1))], the second is zero. *)
Lemma nystroem_rrr_width_witness :
  let u : 'cV[algC]_1 := const_mx 1 in
  let W : 'M[algC]_1 := const_mx 1 in
  let U := np_real_cols (matmul_cols W [:: u; 0]) in
  [/\ size U = 2%N, nth 0 U 0 = map_mx (@Re algC) (W *m u) & nth 0 U 1 = 0].
Proof.
move=> u W U.
have [tmp [W' [values [vectors [q [v [perm [[Etmp Esolve Eqr Etake EW]
      [_ _ szU] Hcol Hzero]]]]]]]] :=
  @nystroem_rrr_width algC 0 Stub.eigh_gen_fails Stub.eigsh_gen
    StubMore.lstsq_ones Stub.argsort_int Stub.modified_QR 1 1 1%:M 1%:M
    1%:M 1%:M 0 2 "arnoldi" false U U None erefl.
have Evec : vectors = [:: u].
  by have [] : Ok ([:: (1 : algC)], [:: u]) = Ok (values, vectors) := Esolve.
have Eq : q = [:: u] /\ perm = [:: 0%N].
  by move: Eqr; rewrite Evec => -[<- <-].
have Ev : v = [:: u].
  by move: Etake; rewrite Eq.1 Eq.2 => -[<-].
have EW' : W' = W by case: EW.
have lt0 : (0 < size v)%N by rewrite Ev.
have lt1 : (size v <= 1 < size U)%N by rewrite Ev.
have [U0 _] := Hcol 0%N lt0.
have [U1 _] := Hzero 1%N lt1.
by split; rewrite ?szU ?U0 ?U1 ?Ev ?EW'.
Defined.

(** [fit_reduced_rank_regression] on the 1 x 1 identity kernels with a
    solver that hands back the eigenpair [(1, [1])]. *)
Lemma rrr_unit_example :
  let I1 := 1%:M : 'M[algC]_1 in
  let u : 'cV[algC]_1 := const_mx 1 in
  fit_reduced_rank_regression (C := algC) 0 Stub.eigs Stub.eig_gen Stub.topk
    I1 I1 0 1 "full" true = Ok ([:: u], [:: I1 *m u], Some [:: 1]).
Proof.
move=> I1 u.
rewrite /fit_reduced_rank_regression py_rsqrt_pos // bind_Ok.
rewrite /rrr_solve /rrr_filter_normalize /=.
have inv1 : is_invalid (1 : algC) = false := is_invalid_nat algC 1.
rewrite /filter_first_invalid /= inv1 /=.
have im1 : imag_is_zero (const_mx 1 : 'cV[algC]_1).
  apply/forallP => i; rewrite mxE.
  by apply/eqP/Creal_ImP; rewrite rpred1.
have re1 : map_mx (@Re algC) (const_mx 1 : 'cV[algC]_1) = const_mx 1.
  apply/matrixP => i j; rewrite !mxE.
  by apply/Creal_ReP; rewrite rpred1.
rewrite im1 /= re1 sqrtC1 invr1 /rrr_unit_col scale1r mul1mx big_ord1 !mxE.
rewrite !mul0r addr0 expr1n /np_sqrt_real ler01 sqrtC1 oner_eq0 invr1 scale1r.
by rewrite /finite_cols /= mul1mx.
Qed.

(** X8 on that run. *)
Lemma rrr_result_shape_witness :
  let I1 := 1%:M : 'M[algC]_1 in
  let u : 'cV[algC]_1 := const_mx 1 in
  let c := (sqrtC (1%:R : algC))^-1 in
  [/\ (size [:: u] <= `|1 : int|)%N, [:: I1 *m u] = matmul_cols I1 [:: u]
    & exists sigma_sq vecs tv sort_perm,
        [/\ rrr_solve Stub.eigs Stub.eig_gen ((c *: I1) *m (c *: I1))
              (regularize_new I1 (py_max 0 0)) 1 "full" =
              Ok (sigma_sq, vecs),
            Stub.topk [seq `|x| | x <- sigma_sq] (size sigma_sq) =
              Ok (tv, sort_perm)
          & Some [:: 1] =
              if true then Some [seq nth 0 sigma_sq i | i <- sort_perm]
              else None]].
Proof.
move=> I1 u c.
exact: (@rrr_result_shape algC 0 Stub.eigs Stub.eig_gen Stub.topk 1 I1 I1 0
          1 "full" true [:: u] [:: I1 *m u] (Some [:: 1]) isT
          rrr_unit_example).
Defined.
